(** * Heartbeat detection service: a shallow embedding of [heartbeat_api.py]

    The development follows the source file top to bottom:
    [safe_session_id] (the session-id sanitiser) and [process_heartbeat]
    (normalisation, band-pass filtering with fallback, envelope smoothing,
    peak detection, lub-dub grouping, rate estimation, metadata record).

    Numbers.  Sample indices, counts and the sample rate are integers ([Z]
    and [nat]).  Sample values and every quantity the program computes with
    Python or NumPy floats are modelled by exact rationals ([Q]): the model
    keeps the arithmetic the program writes down and leaves binary64
    rounding out.  Where the program rounds a float to decimals for the
    metadata, the outcome at a tie depends on the binary value, so that
    operation is a member of the class [FloatRound], constrained by
    [FloatRoundLaws] and not computed.  The module [Binary64] at the end of
    the definitions recomputes, on the IEEE-754 model of the Standard
    Library, the integer quantities the program derives from the sample
    rate; [Binary64Facts] checks that they agree with the rational model
    on the sample rates up to 5 kHz and the usual audio rates above.

    Library calls.  [scipy.signal.butter], [scipy.signal.filtfilt] and
    [scipy.signal.hilbert] are not part of the program; they enter the
    pipeline through the class [SignalLib], and [SignalLibLaws] states the
    part of their documented contract that the program relies on.
    [scipy.signal.lfilter], [numpy.convolve] and [scipy.signal.find_peaks]
    are written out.  The plotting and file-writing calls are left out but
    for the shape check of [plt.plot], which can raise. *)

From Stdlib Require Import Ascii String.
From Stdlib Require Import List Sorted Permutation ZArith QArith Qabs Qround.
From Stdlib Require Import Bool Lia Lqa.
From Stdlib Require Import Floats.SpecFloat.
Import ListNotations.

(* ------------------------------------------------------------------ *)
(** ** Outcomes of fallible code *)

(** The exceptions the modelled code can raise. *)
Inductive exn : Type :=
| ValueError
| ZeroDivisionError.

Inductive result (A : Type) : Type :=
| Ok (a : A)
| Raise (e : exn).

Arguments Ok {A} a.
Arguments Raise {A} e.

Definition bind {A B : Type} (r : result A) (k : A -> result B) : result B :=
  match r with
  | Ok a => k a
  | Raise e => Raise e
  end.

Notation "x <- r ;; k" := (bind r (fun x => k))
  (at level 61, r at next level, right associativity).
Notation "' pat <- r ;; k" := (bind r (fun x => match x with pat => k end))
  (at level 61, pat pattern, r at next level, right associativity).

(** [Subseq s l]: [s] is [l] with some elements dropped, order kept. *)
Inductive Subseq {A : Type} : list A -> list A -> Prop :=
| Subseq_nil : Subseq [] []
| Subseq_keep (x : A) (s l : list A) : Subseq s l -> Subseq (x :: s) (x :: l)
| Subseq_drop (x : A) (s l : list A) : Subseq s l -> Subseq s (x :: l).

(* ------------------------------------------------------------------ *)
(** ** Session identifiers *)

Module SessionId.

Local Open Scope string_scope.

(** The literal ["0123456789abcdef"] of the source. *)
Definition hex_alphabet : string := "0123456789abcdef".

(** [c in s] for a one-character [c]. *)
Fixpoint char_in (c : ascii) (s : string) : bool :=
  match s with
  | EmptyString => false
  | String d s' => Ascii.eqb c d || char_in c s'
  end.

(** [all(c in "0123456789abcdef" for c in sid)]. *)
Fixpoint all_hex (sid : string) : bool :=
  match sid with
  | EmptyString => true
  | String c s' => char_in c hex_alphabet && all_hex s'
  end.

(** [not sid]: the empty string is the only falsy string. *)
Definition is_empty (sid : string) : bool :=
  match sid with
  | EmptyString => true
  | String _ _ => false
  end.

Definition safe_session_id (sid : string) : result string :=
  if is_empty sid || negb (all_hex sid) then Raise ValueError else Ok sid.

(** Occurrence of a character in a string, as a proposition. *)
Fixpoint Occurs (c : ascii) (s : string) : Prop :=
  match s with
  | EmptyString => False
  | String d s' => c = d \/ Occurs c s'
  end.

(** The sixteen characters of the lowercase hexadecimal alphabet. *)
Definition is_lower_hex (c : ascii) : Prop := Occurs c hex_alphabet.

End SessionId.

(* ------------------------------------------------------------------ *)
(** ** Numbers: Python's [int], [round] and NumPy's [max] on rationals *)

Module Num.

Local Open Scope Q_scope.

Definition Qlt_bool (x y : Q) : bool := negb (Qle_bool y x).

(** [int(x)] on a float: truncation toward zero. *)
Definition int_trunc (x : Q) : Z := Z.quot (Qnum x) (Z.pos (Qden x)).

(** [round(x)]: to the nearest integer, ties to the even one. *)
Definition round_half_even (x : Q) : Z :=
  let f := Qfloor x in
  match Qcompare (x - inject_Z f) 0.5 with
  | Lt => f
  | Gt => (f + 1)%Z
  | Eq => if Z.even f then f else (f + 1)%Z
  end.

(** Rounding to [ndigits] decimals on exact values, a tie going to the
    even last digit.  Python's [round(x, ndigits)] acts on a double, whose
    value is in general not the decimal fraction the exact arithmetic
    gives, so the pipeline does not call this function: it calls
    [round_decimals] of [FloatRound], and this one serves as an instance of
    it for runs on concrete inputs. *)
Definition py_round (x : Q) (ndigits : nat) : Q :=
  let scale := inject_Z (10 ^ Z.of_nat ndigits) in
  inject_Z (round_half_even (x * scale)) / scale.

Definition Qmax2 (x y : Q) : Q := if Qle_bool x y then y else x.

(** [np.max(l)]; NumPy raises [ValueError] on an empty array. *)
Definition np_max (l : list Q) : result Q :=
  match l with
  | [] => Raise ValueError
  | h :: t => Ok (fold_left Qmax2 t h)
  end.

(** [np.max(np.abs(y))]. *)
Definition peak_abs (y : list Q) : result Q := np_max (map Qabs y).

(** Sum of a list of rationals, left to right. *)
Definition Qsum (l : list Q) : Q := fold_left Qplus l 0.

End Num.

(* ------------------------------------------------------------------ *)
(** ** Normalizer (source lines 47-50) *)

Module Normalizer.
Import Num.
Local Open Scope Q_scope.

(** The constant [1e-12] added to a silent waveform. *)
Definition tiny : Q := 1e-12.

(** [if np.max(np.abs(y)) == 0: y = y + 1e-12]. *)
Definition avoid_all_zero (y : list Q) : result (list Q) :=
  p <- peak_abs y ;;
  Ok (if Qeq_bool p 0 then map (fun s => s + tiny) y else y).

(** [y = y / np.max(np.abs(y))]. *)
Definition divide_by_peak (y : list Q) : result (list Q) :=
  p <- peak_abs y ;;
  Ok (map (fun s => s / p) y).

Definition normalize (y : list Q) : result (list Q) :=
  y1 <- avoid_all_zero y ;;
  divide_by_peak y1.

End Normalizer.

(* ------------------------------------------------------------------ *)
(** ** Filtering: [scipy.signal.lfilter] written out *)

Module Filter.
Import Num.
Local Open Scope Q_scope.

(** Coefficient vectors are padded with zeros to a common length. *)
Definition pad_to (n : nat) (c : list Q) : list Q :=
  c ++ repeat 0 (n - length c).

(** One update of the delay line of the transposed direct form II:
    [z'[i] = z[i+1] + b[i+1]*x - a[i+1]*y], the last cell having no
    successor.  [bt] and [at_] are [b[1:]] and [a[1:]], [zs] is [z[1:]]. *)
Fixpoint next_state (bt at_ zs : list Q) (x y : Q) : list Q :=
  match bt, at_ with
  | bi :: bt', ai :: at' =>
      (hd 0 zs + bi * x - ai * y) :: next_state bt' at' (tl zs) x y
  | _, _ => []
  end.

(** The filter loop: [y[n] = z[0] + b[0]*x[n]], then the state update. *)
Fixpoint run_filter (b0 : Q) (bt at_ z : list Q) (xs : list Q) : list Q :=
  match xs with
  | [] => []
  | x :: xs' =>
      let y := hd 0 z + b0 * x in
      y :: run_filter b0 bt at_ (next_state bt at_ (tl z) x y) xs'
  end.

(** [lfilter(b, a, x)] with zero initial state.  The coefficients are
    divided by [a[0]].  With two or more denominator coefficients SciPy
    runs the filter loop and raises [ValueError] when [a[0]] is zero.  With
    a single one ([len(a) == 1]) it convolves [b / a[0]] with the samples
    and keeps the first [len(x)] values, which is what the loop gives
    without feedback; [np.convolve] raises [ValueError] when there is no
    sample.  An empty coefficient vector raises as well.

    A single denominator coefficient equal to zero makes SciPy divide by
    it and return non-finite values.  The rationals have none: the model
    raises there, and every statement about [lfilter] below assumes a
    nonzero [a[0]]. *)
Definition lfilter (b a x : list Q) : result (list Q) :=
  match a, b with
  | a0 :: _, _ :: _ =>
      if Qeq_bool a0 0 then Raise ValueError
      else if (length a =? 1)%nat && (length x =? 0)%nat
      then Raise ValueError
      else
        let n := Nat.max (length a) (length b) in
        let bn := map (fun c => c / a0) (pad_to n b) in
        let an := map (fun c => c / a0) (pad_to n a) in
        Ok (run_filter (hd 0 bn) (tl bn) (tl an) (repeat 0 (n - 1)) x)
  | _, _ => Raise ValueError
  end.

End Filter.

(* ------------------------------------------------------------------ *)
(** ** Envelope smoothing: [np.convolve(..., mode="same")] written out *)

Module Envelope.
Import Num.
Local Open Scope Q_scope.

(** [window_len = int(Fs * 0.05)], raised to 1 when smaller. *)
Definition window_len (Fs : Z) : Z :=
  let w := int_trunc (inject_Z Fs * 0.05) in
  if (w <? 1)%Z then 1%Z else w.

(** [np.ones(window_len) / window_len]. *)
Definition box_kernel (w : Z) : list Q :=
  map (fun one => one / inject_Z w) (repeat 1 (Z.to_nat w)).

(** Entry [k] of the full discrete convolution:
    [sum_j a[j] * v[k - j]], out-of-range entries counting as zero. *)
Definition conv_at (a v : list Q) (k : nat) : Q :=
  Qsum (map (fun j => nth j a 0 * nth (k - j) v 0) (seq 0 (S k))).

(** [np.convolve(a, v, mode="same")]: the operands are swapped so that the
    first is the longer one, and the [max(len a, len v)] central entries
    of the full convolution are returned.  Empty operands raise. *)
Definition convolve_same (a v : list Q) : result (list Q) :=
  match a, v with
  | [], _ | _, [] => Raise ValueError
  | _, _ =>
      let '(a1, v1) := if (length a <? length v)%nat then (v, a) else (a, v) in
      let off := ((length v1 - 1) / 2)%nat in
      Ok (map (fun i => conv_at a1 v1 (i + off)) (seq 0 (length a1)))
  end.

(** [np.convolve(env, np.ones(window_len) / window_len, mode="same")]. *)
Definition smooth_envelope (Fs : Z) (env : list Q) : result (list Q) :=
  convolve_same env (box_kernel (window_len Fs)).

End Envelope.

(* ------------------------------------------------------------------ *)
(** ** Beat detector: [scipy.signal.find_peaks] with [height] and
       [distance], written out *)

Module Peaks.
Import Num.
Local Open Scope Q_scope.

(** Inner loop of the local-maximum scan: walk over a plateau,
    [while i_ahead < i_max and x[i_ahead] == x[i]: i_ahead += 1]. *)
Fixpoint plateau_end (fuel : nat) (x : list Q) (xi : Q) (i_ahead i_max : nat)
  : nat :=
  match fuel with
  | O => i_ahead
  | S fuel' =>
      if (i_ahead <? i_max)%nat && Qeq_bool (nth i_ahead x 0) xi
      then plateau_end fuel' x xi (S i_ahead) i_max
      else i_ahead
  end.

(** Outer loop: a sample is a peak when it rises above its left
    neighbour and the plateau it starts ends in a fall; the middle of the
    plateau is reported and the scan resumes after the plateau. *)
Fixpoint local_maxima_from (fuel : nat) (x : list Q) (i i_max : nat)
  : list nat :=
  match fuel with
  | O => []
  | S fuel' =>
      if (i <? i_max)%nat then
        if Qlt_bool (nth (i - 1) x 0) (nth i x 0) then
          let i_ahead := plateau_end (length x) x (nth i x 0) (S i) i_max in
          if Qlt_bool (nth i_ahead x 0) (nth i x 0) then
            ((i + (i_ahead - 1)) / 2)%nat
              :: local_maxima_from fuel' x (S i_ahead) i_max
          else local_maxima_from fuel' x (S i) i_max
        else local_maxima_from fuel' x (S i) i_max
      else []
  end.

(** The scan starts at index 1 and stops before the last sample. *)
Definition local_maxima (x : list Q) : list nat :=
  local_maxima_from (length x) x 1 (length x - 1).

(** [peaks[x[peaks] >= height]]. *)
Definition select_by_height (x : list Q) (height : Q) (peaks : list nat)
  : list nat :=
  filter (fun p => Qle_bool height (nth p x 0)) peaks.

(** [np.argsort(priority)]: positions by ascending priority.  NumPy's
    default sort does not promise an order among equal priorities; the
    insertion sort below puts them in index order, one of the orders NumPy
    may produce.  The order only decides which of several equally high
    peaks that are too close survives: the spacing and height of the
    peaks kept, proved in [PeaksFacts] from the fact that every position
    is visited ([In_argsort]), are the same for every order. *)
Fixpoint insert_by (prio : list Q) (j : nat) (l : list nat) : list nat :=
  match l with
  | [] => [j]
  | k :: l' =>
      if Qle_bool (nth j prio 0) (nth k prio 0) then j :: l
      else k :: insert_by prio j l'
  end.

Definition argsort (prio : list Q) : list nat :=
  fold_right (insert_by prio) [] (seq 0 (length prio)).

(** [keep[k] = 0]. *)
Fixpoint clear (k : nat) (keep : list bool) : list bool :=
  match keep, k with
  | [], _ => []
  | _ :: t, O => false :: t
  | h :: t, S k' => h :: clear k' t
  end.

(** [k = j - 1; while 0 <= k and peaks[j] - peaks[k] < distance:
    keep[k] = 0; k -= 1].  The argument [k1] is [k + 1]. *)
Fixpoint clear_left (peaks : list nat) (pj : nat) (distance : Z) (k1 : nat)
         (keep : list bool) : list bool :=
  match k1 with
  | O => keep
  | S k =>
      if (Z.of_nat pj - Z.of_nat (nth k peaks O) <? distance)%Z
      then clear_left peaks pj distance k (clear k keep)
      else keep
  end.

(** [k = j + 1; while k < peaks_size and peaks[k] - peaks[j] < distance:
    keep[k] = 0; k += 1]. *)
Fixpoint clear_right (fuel : nat) (peaks : list nat) (pj : nat) (distance : Z)
         (k : nat) (keep : list bool) : list bool :=
  match fuel with
  | O => keep
  | S fuel' =>
      if (k <? length peaks)%nat
         && (Z.of_nat (nth k peaks O) - Z.of_nat pj <? distance)%Z
      then clear_right fuel' peaks pj distance (S k) (clear k keep)
      else keep
  end.

(** Body of the priority loop for position [j]. *)
Definition suppress_around (peaks : list nat) (distance : Z)
           (keep : list bool) (j : nat) : list bool :=
  if nth j keep false then
    let pj := nth j peaks O in
    clear_right (length peaks) peaks pj distance (S j)
                (clear_left peaks pj distance j keep)
  else keep.

(** The priority loop over an explicit visiting [order]. *)
Definition suppress_in_order (peaks : list nat) (distance : Z)
           (order : list nat) : list bool :=
  fold_left (suppress_around peaks distance) order
            (repeat true (length peaks)).

(** [_select_by_peak_distance]: positions are visited from the highest
    priority to the lowest. *)
Definition select_by_peak_distance (peaks : list nat) (prio : list Q)
           (distance : Z) : list bool :=
  suppress_in_order peaks distance (rev (argsort prio)).

(** [peaks[keep]]. *)
Fixpoint mask (peaks : list nat) (keep : list bool) : list nat :=
  match peaks, keep with
  | p :: ps, k :: ks => if k then p :: mask ps ks else mask ps ks
  | _, _ => []
  end.

(** [find_peaks(x, height=height, distance=distance)]. *)
Definition find_peaks (x : list Q) (height : Q) (distance : Z)
  : result (list nat) :=
  if (distance <? 1)%Z then Raise ValueError
  else
    let peaks := select_by_height x height (local_maxima x) in
    let keep :=
      select_by_peak_distance peaks (map (fun p => nth p x 0) peaks) distance in
    Ok (mask peaks keep).

(** [int(0.2 * Fs)]. *)
Definition min_distance (Fs : Z) : Z := int_trunc (0.2 * inject_Z Fs).

(** Source lines 78-79: threshold and raw peaks. *)
Definition detect_peaks (Fs : Z) (env_smooth : list Q)
  : result (Q * list nat) :=
  m <- np_max env_smooth ;;
  let threshold := 0.3 * m in
  peaks <- find_peaks env_smooth threshold (min_distance Fs) ;;
  Ok (threshold, peaks).

End Peaks.

(* ------------------------------------------------------------------ *)
(** ** Beat grouper and rate estimator (source lines 82-88) *)

Module Beats.
Import Num.
Local Open Scope Q_scope.

Definition is_nil {A : Type} (l : list A) : bool :=
  match l with
  | [] => true
  | _ :: _ => false
  end.

(** Loop body:
    [if not grouped or (p - grouped[-1]) > 0.6 * Fs: grouped.append(p)]. *)
Definition group_step (Fs : Z) (grouped : list Z) (p : Z) : list Z :=
  if is_nil grouped
     || Qlt_bool (0.6 * inject_Z Fs) (inject_Z (p - last grouped 0%Z))
  then grouped ++ [p]
  else grouped.

Definition group_beats (Fs : Z) (peaks : list Z) : list Z :=
  fold_left (group_step Fs) peaks [].

(** The spacing the grouper asks for between a beat [a] and a later
    peak [b]: [(b - a) > 0.6 * Fs]. *)
Definition far_apart (Fs : Z) (a b : Z) : Prop :=
  0.6 * inject_Z Fs < inject_Z (b - a).

(** [len(beats) / (duration / 60) if duration > 0 else 0.0]. *)
Definition estimate_bpm (n_beats : nat) (duration : Q) : Q :=
  if Qlt_bool 0 duration
  then inject_Z (Z.of_nat n_beats) / (duration / 60)
  else 0.

End Beats.

(* ------------------------------------------------------------------ *)
(** ** The pipeline: [process_heartbeat] *)

(** What [sf.read] hands over: a one-dimensional array of samples, or a
    two-dimensional one with a row of channel values per frame. *)
Inductive audio : Type :=
| Mono (samples : list Q)
| Frames (rows : list (list Q)).

(** The metadata dictionary [meta] (without the constant file names). *)
Record meta : Type := {
  meta_Fs : Z;
  meta_duration_sec : Q;
  meta_threshold : Q;
  meta_raw_peaks : nat;
  meta_beats_grouped : nat;
  meta_bpm : Q
}.

(** The values the function computes on the way, kept for the statements. *)
Record analysis : Type := {
  y_norm : list Q;
  duration : Q;
  y_filt : list Q;
  env_smooth : list Q;
  peaks : list nat;
  grouped : list Z;
  bpm : Q;
  result_meta : meta
}.

(** The SciPy entry points the pipeline calls and does not define. *)
Class SignalLib : Type := {
  (** [butter(2, [20, 200], btype="band", fs=Fs)]: the pair [(b, a)]. *)
  butter_band : Z -> result (list Q * list Q);
  (** [filtfilt(b, a, x)]. *)
  filtfilt : list Q -> list Q -> list Q -> result (list Q);
  (** [np.abs(hilbert(x))]. *)
  hilbert_abs : list Q -> list Q
}.

(** The part of their documentation the pipeline relies on: the designed
    filter has coefficient vectors with a nonzero leading denominator
    coefficient, and filtering and the analytic signal keep the length. *)
Class SignalLibLaws (L : SignalLib) : Prop := {
  butter_band_shape : forall Fs b a,
    butter_band Fs = Ok (b, a) -> b <> [] /\ ~ (hd 0 a == 0);
  filtfilt_length : forall b a x r,
    filtfilt b a x = Ok r -> length r = length x;
  hilbert_abs_length : forall x, length (hilbert_abs x) = length x
}.

(** [round(x, ndigits)] on a double, as source lines 118 and 122 call it
    with [ndigits] 2 and 1.  The result is the decimal with [ndigits]
    digits that [json.dump] writes; which of two neighbours it is when the
    exact quotient lies halfway between them depends on the binary value of
    the double, which the rationals do not carry.  The operation is
    therefore left open. *)
Class FloatRound : Type := {
  round_decimals : Q -> nat -> Q
}.

(** What Python documents of it: the result is a multiple of
    [10 ^ - ndigits], and a closest one. *)
Class FloatRoundLaws (R : FloatRound) : Prop := {
  round_decimals_grid : forall x nd,
    exists k : Z,
      round_decimals x nd == inject_Z k / inject_Z (10 ^ Z.of_nat nd);
  round_decimals_near : forall x nd,
    Qabs (round_decimals x nd - x) <= 1 / (2 * inject_Z (10 ^ Z.of_nat nd))
}.

Module Pipeline.
Import Num Normalizer Filter Envelope Peaks Beats.
Local Open Scope Q_scope.

(** [y[:, 0]]. *)
Definition first_channel (rows : list (list Q)) : list Q :=
  map (fun row => hd 0 row) rows.

(** [if y.ndim > 1: y = y[:, 0]]. *)
Definition to_mono (inp : audio) : list Q :=
  match inp with
  | Mono y => y
  | Frames rows => first_channel rows
  end.

(** [len(y) / Fs]. *)
Definition duration_of (n : nat) (Fs : Z) : result Q :=
  if (Fs =? 0)%Z then Raise ZeroDivisionError
  else Ok (inject_Z (Z.of_nat n) / inject_Z Fs).

(** Source lines 58-64: the zero-phase filter and, on any exception it
    raises, the forward-only filter with the same coefficients. *)
Definition bandpass {L : SignalLib} (Fs : Z) (y : list Q)
  : result (list Q) :=
  '(b, a) <- butter_band Fs ;;
  match filtfilt b a y with
  | Ok r => Ok r
  | Raise _ => lfilter b a y
  end.

(** [plt.plot(t, track)] raises [ValueError] unless the track has as many
    points as the time axis [t = np.arange(len(y)) / Fs]. *)
Definition plot_tracks (n : nat) (tracks : list (list Q)) : result unit :=
  if forallb (fun tr => (length tr =? n)%nat) tracks then Ok tt
  else Raise ValueError.

Definition process_heartbeat {L : SignalLib} {R : FloatRound}
           (inp : audio) (Fs : Z) : result analysis :=
  y <- normalize (to_mono inp) ;;
  dur <- duration_of (length y) Fs ;;
  yf <- bandpass Fs y ;;
  let env := hilbert_abs yf in
  es <- smooth_envelope Fs env ;;
  '(threshold, pk) <- detect_peaks Fs es ;;
  let beats := group_beats Fs (map Z.of_nat pk) in
  let rate := estimate_bpm (length beats) dur in
  _ <- plot_tracks (length y) [y; yf; es] ;;
  Ok {| y_norm := y;
        duration := dur;
        y_filt := yf;
        env_smooth := es;
        peaks := pk;
        grouped := beats;
        bpm := rate;
        result_meta :=
          {| meta_Fs := Fs;
             meta_duration_sec := round_decimals dur 2;
             meta_threshold := threshold;
             meta_raw_peaks := length pk;
             meta_beats_grouped := length beats;
             meta_bpm := round_decimals rate 1 |} |}.

End Pipeline.

(* ------------------------------------------------------------------ *)
(** ** A small instance of the library interface

    Used to run the pipeline on concrete inputs.  The filter design is the
    fixed section [(1 - z^-2)^2], which blocks the zero and the Nyquist
    frequency and has integer coefficients; the zero-phase filter refuses inputs
    of at most [3 * max(len(a), len(b))] samples (SciPy's default padding
    length) and otherwise filters forward and backward, the envelope is
    the rectified signal, and decimals are rounded on the exact values. *)

Module Reference.
Import Num Filter.
Local Open Scope Q_scope.

Definition ref_butter (Fs : Z) : result (list Q * list Q) :=
  if (400 <? Fs)%Z
  then Ok ([1; 0; -2; 0; 1], [1; 0; 0; 0; 0])
  else Raise ValueError.

Definition ref_filtfilt (b a x : list Q) : result (list Q) :=
  if (length x <=? 3 * Nat.max (length a) (length b))%nat
  then Raise ValueError
  else
    fwd <- lfilter b a x ;;
    bwd <- lfilter b a (rev fwd) ;;
    Ok (rev bwd).

#[export] Instance ref_lib : SignalLib := {
  butter_band := ref_butter;
  filtfilt := ref_filtfilt;
  hilbert_abs := map Qabs
}.

(** Decimal rounding on the exact values, ties to the even digit. *)
#[export] Instance ref_round : FloatRound := {
  round_decimals := py_round
}.

(** Ten samples, too few for the zero-phase filter. *)
Definition ten_samples : list Q := [0; 1; 0; -1; 0; 1; 0; -1; 0; 1].

(** Thirty samples with one click at index 10. *)
Definition one_click : list Q :=
  map (fun i => if (i =? 10)%nat then 1 else 0) (seq 0 30).

(** An envelope of 83 samples, zero but for index 1 and index 81. *)
Definition two_spikes : list Q :=
  map (fun i => if (i =? 1)%nat || (i =? 81)%nat then 1 else 0) (seq 0 83).

End Reference.

(* ------------------------------------------------------------------ *)
(** ** The sample-rate arithmetic in binary64 *)

Module Binary64.
Local Open Scope Z_scope.

(** Precision and exponent bound of the double format. *)
Definition prec : Z := 53.
Definition emax : Z := 1024.

(** [float(n)] for an integer [n], rounded to nearest even. *)
Definition of_int (n : Z) : spec_float := binary_normalize prec emax n 0 false.

(** The doubles nearest to the decimal literals of the source:
    [0.05 = 0x1.999999999999ap-5], [0.2 = 0x1.999999999999ap-3] and
    [0.6 = 0x1.3333333333333p-1]. *)
Definition lit_0_05 : spec_float := S754_finite false 7205759403792794 (-57).
Definition lit_0_2 : spec_float := S754_finite false 7205759403792794 (-55).
Definition lit_0_6 : spec_float := S754_finite false 5404319552844595 (-53).

Definition fmul (x y : spec_float) : spec_float := SFmul prec emax x y.

(** [int(x)] on a float: truncation toward zero; Python raises on an
    infinity or a NaN. *)
Definition int_of (x : spec_float) : option Z :=
  match x with
  | S754_zero _ => Some 0
  | S754_finite s m e =>
      let v := if 0 <=? e then Z.pos m * 2 ^ e
               else Z.quot (Z.pos m) (2 ^ (- e)) in
      Some (if s then - v else v)
  | S754_infinity _ | S754_nan => None
  end.

(** [window_len = int(Fs * 0.05)], raised to 1 when smaller. *)
Definition window_len (Fs : Z) : option Z :=
  option_map (fun w => if w <? 1 then 1 else w)
             (int_of (fmul (of_int Fs) lit_0_05)).

(** [int(0.2 * Fs)]. *)
Definition min_distance (Fs : Z) : option Z :=
  int_of (fmul lit_0_2 (of_int Fs)).

(** [gap > 0.6 * Fs] for an integer [gap]. *)
Definition far_apart (Fs gap : Z) : bool :=
  SFltb (fmul lit_0_6 (of_int Fs)) (of_int gap).

(** [lo, lo + 1, ...], [n] integers. *)
Fixpoint range_from (lo : Z) (n : nat) : list Z :=
  match n with
  | O => []
  | S n' => lo :: range_from (lo + 1) n'
  end.

(** The sample rates the check runs over: 1 Hz to 5 kHz, and the usual
    audio rates above. *)
Definition sample_rates : list Z :=
  range_from 1 (Z.to_nat 5000)
  ++ [8000; 11025; 16000; 22050; 32000; 44100; 48000;
      88200; 96000; 176400; 192000].

Definition option_Z_eqb (a b : option Z) : bool :=
  match a, b with
  | Some x, Some y => x =? y
  | None, None => true
  | _, _ => false
  end.

(** Agreement with the rational model at one sample rate: the window
    length, the minimum peak distance, and the grouping test at the three
    gaps around [0.6 * Fs]. *)
Definition agrees (Fs : Z) : bool :=
  let g := 3 * Fs / 5 in
  let same_test gap :=
    Bool.eqb (far_apart Fs gap)
             (Num.Qlt_bool (0.6 * inject_Z Fs)%Q (inject_Z gap)) in
  option_Z_eqb (window_len Fs) (Some (Envelope.window_len Fs))
  && option_Z_eqb (min_distance Fs) (Some (Peaks.min_distance Fs))
  && same_test (g - 1) && same_test g && same_test (g + 1).

End Binary64.

(* ------------------------------------------------------------------ *)
(** ** The session service: upload, lookup, delete, rename, listing

    The directory [results] is modelled by the session folders it holds,
    each with the files the service writes into it.  Failures of the file
    system other than a missing source of [os.rename] are left out. *)

Module Service.
Import SessionId Pipeline.
Local Open Scope string_scope.

(** The files of a session folder: which of the four data files exist,
    and the contents of [meta.json] when it exists. *)
Record folder : Type := {
  raw_upload_wav : bool;
  original_wav : bool;
  filtered_wav : bool;
  plot_png : bool;
  meta_json : option meta
}.

Definition empty_folder : folder :=
  {| raw_upload_wav := false; original_wav := false; filtered_wav := false;
     plot_png := false; meta_json := None |}.

(** The session folders under [SAVE_ROOT], by name. *)
Definition store : Type := list (string * folder).

(** [os.path.isdir(os.path.join(SAVE_ROOT, name))] and the folder found. *)
Fixpoint lookup (name : string) (st : store) : option folder :=
  match st with
  | [] => None
  | (k, f) :: st' => if String.eqb k name then Some f else lookup name st'
  end.

(** [shutil.rmtree]. *)
Fixpoint remove (name : string) (st : store) : store :=
  match st with
  | [] => []
  | (k, f) :: st' =>
      if String.eqb k name then remove name st' else (k, f) :: remove name st'
  end.

(** Writing the folder [name]. *)
Definition put (name : string) (f : folder) (st : store) : store :=
  (name, f) :: remove name st.

(** What an endpoint answers: a body with status 200, a refusal with a
    status and a fixed message, or status 500 carrying an exception. *)
Inductive failure : Type :=
| AnalysisFailed (e : exn)
| DecodeFailed
| FileNotFound.

Inductive reply (A : Type) : Type :=
| Success (body : A)
| Refused (status : nat) (error : string)
| Failed (why : failure).

Arguments Success {A} body.
Arguments Refused {A} status error.
Arguments Failed {A} why.

(** [c.lower()] on the code points 0 to 255: the letters A to Z and the
    capital letters of Latin-1 move up by 32. *)
Definition lower_char (c : ascii) : ascii :=
  let n := nat_of_ascii c in
  if ((65 <=? n)%nat && (n <=? 90)%nat)
     || ((192 <=? n)%nat && (n <=? 222)%nat && negb (n =? 215)%nat)
  then ascii_of_nat (n + 32)
  else c.

Fixpoint lower (s : string) : string :=
  match s with
  | EmptyString => EmptyString
  | String c s' => String (lower_char c) (lower s')
  end.

(** [s.endswith(suffix)]. *)
Fixpoint ends_with (suffix s : string) : bool :=
  String.eqb s suffix
  || match s with
     | EmptyString => false
     | String _ s' => ends_with suffix s'
     end.

(** [s[:n]]. *)
Fixpoint take (n : nat) (s : string) : string :=
  match n, s with
  | S n', String c s' => String c (take n' s')
  | _, _ => EmptyString
  end.

(** ["".join(c for c in s if c in "0123456789abcdef")]. *)
Fixpoint keep_hex (s : string) : string :=
  match s with
  | EmptyString => EmptyString
  | String c s' =>
      if char_in c hex_alphabet then String c (keep_hex s') else keep_hex s'
  end.

(** Source lines 243 and 246: the cleaned new identifier and the target
    [(new_clean + sid)[:8]]. *)
Definition clean_new_id (new_id : string) : string := keep_hex (lower new_id).

Definition rename_target (sid new_id : string) : string :=
  take 8 (clean_new_id new_id ++ sid).

(** [GET /session/{id}/json]. *)
Definition session_json (session_id : string) (st : store)
  : reply (string * meta) :=
  match safe_session_id session_id with
  | Raise _ => Refused 400 "invalid session id"
  | Ok sid =>
      match lookup sid st with
      | Some f =>
          match meta_json f with
          | Some m => Success (sid, m)
          | None => Refused 404 "meta not found"
          end
      | None => Refused 404 "meta not found"
      end
  end.

(** [POST /session/{id}/delete]: the answer and the store afterwards. *)
Definition delete_session (session_id : string) (st : store)
  : reply string * store :=
  match safe_session_id session_id with
  | Raise _ => (Refused 400 "invalid session id", st)
  | Ok sid =>
      match lookup sid st with
      | None => (Refused 404 "session not found", st)
      | Some _ => (Success sid, remove sid st)
      end
  end.

(** [POST /session/{id}/rename]: the answer, with the old and the new
    identifier on success, and the store afterwards. *)
Definition rename_session (session_id new_id : string) (st : store)
  : reply (string * string) * store :=
  match safe_session_id session_id with
  | Raise _ => (Refused 400 "invalid session id", st)
  | Ok sid =>
      if is_empty new_id then (Refused 400 "new_id required", st)
      else if (String.length (clean_new_id new_id) <? 4)%nat
      then (Refused 400 "new_id too short (need at least 4 hex chars)", st)
      else
        let new_clean := rename_target sid new_id in
        match lookup new_clean st with
        | Some _ => (Refused 400 "target id already exists", st)
        | None =>
            match lookup sid st with
            | None => (Failed FileNotFound, st)
            | Some f => (Success (sid, new_clean), put new_clean f (remove sid st))
            end
        end
  end.

(** [process_heartbeat] with the files it leaves behind: [original.wav]
    once the waveform is normalized, [filtered.wav] after the band-pass
    stage, [plot.png] and [meta.json] at the end. *)
Definition process_heartbeat_files {L : SignalLib} {R : FloatRound}
           (inp : audio) (Fs : Z) (f : folder) : folder * result analysis :=
  match Normalizer.normalize (to_mono inp) with
  | Raise e => (f, Raise e)
  | Ok y =>
  match duration_of (List.length y) Fs with
  | Raise e => (f, Raise e)
  | Ok dur =>
  let f1 := {| raw_upload_wav := raw_upload_wav f; original_wav := true;
               filtered_wav := filtered_wav f; plot_png := plot_png f;
               meta_json := meta_json f |} in
  match bandpass Fs y with
  | Raise e => (f1, Raise e)
  | Ok yf =>
  let f2 := {| raw_upload_wav := raw_upload_wav f; original_wav := true;
               filtered_wav := true; plot_png := plot_png f;
               meta_json := meta_json f |} in
  match Envelope.smooth_envelope Fs (hilbert_abs yf) with
  | Raise e => (f2, Raise e)
  | Ok es =>
  match Peaks.detect_peaks Fs es with
  | Raise e => (f2, Raise e)
  | Ok (threshold, pk) =>
  let beats := Beats.group_beats Fs (map Z.of_nat pk) in
  let rate := Beats.estimate_bpm (List.length beats) dur in
  match plot_tracks (List.length y) [y; yf; es] with
  | Raise e => (f2, Raise e)
  | Ok _ =>
  let m := {| meta_Fs := Fs;
              meta_duration_sec := round_decimals dur 2;
              meta_threshold := threshold;
              meta_raw_peaks := List.length pk;
              meta_beats_grouped := List.length beats;
              meta_bpm := round_decimals rate 1 |} in
  ({| raw_upload_wav := raw_upload_wav f; original_wav := true;
      filtered_wav := true; plot_png := true; meta_json := Some m |},
   Ok {| y_norm := y; duration := dur; y_filt := yf; env_smooth := es;
         peaks := pk; grouped := beats; bpm := rate; result_meta := m |})
  end end end end end end.

(** [POST /upload].  [uuid_hex] is [uuid.uuid4().hex]; [decoded] is what
    [sf.read] makes of the uploaded bytes, [None] when it raises.  The
    folder is created and the upload saved before the analysis; the upload
    is removed after a successful analysis only. *)
Definition upload_wav {L : SignalLib} {R : FloatRound}
           (filename uuid_hex : string)
           (decoded : option (audio * Z)) (st : store)
  : reply (string * meta) * store :=
  if negb (ends_with ".wav" (lower filename))
  then (Refused 400 "Only .wav files are supported", st)
  else
    let session_id := take 8 uuid_hex in
    let f0 := match lookup session_id st with
              | Some f => f
              | None => empty_folder
              end in
    let f1 := {| raw_upload_wav := true; original_wav := original_wav f0;
                 filtered_wav := filtered_wav f0; plot_png := plot_png f0;
                 meta_json := meta_json f0 |} in
    match decoded with
    | None => (Failed DecodeFailed, put session_id f1 st)
    | Some (inp, Fs) =>
        match process_heartbeat_files inp Fs f1 with
        | (f2, Raise e) => (Failed (AnalysisFailed e), put session_id f2 st)
        | (f2, Ok r) =>
            let f3 := {| raw_upload_wav := false;
                         original_wav := original_wav f2;
                         filtered_wav := filtered_wav f2;
                         plot_png := plot_png f2;
                         meta_json := meta_json f2 |} in
            (Success (session_id, result_meta r), put session_id f3 st)
        end
    end.

(** Two sessions, the first one analysed. *)
Definition demo_store : store :=
  [("0a1b2c3d",
    {| raw_upload_wav := false; original_wav := true; filtered_wav := true;
       plot_png := true;
       meta_json := Some {| meta_Fs := 1000; meta_duration_sec := 10%Q;
                            meta_threshold := 0.25%Q; meta_raw_peaks := 20;
                            meta_beats_grouped := 10; meta_bpm := 60%Q |} |});
   ("ffff0000", empty_folder)].

(** [sorted(names, reverse=True)]: insertion into a descending list. *)
Fixpoint insert_desc (x : string * option meta)
         (l : list (string * option meta)) : list (string * option meta) :=
  match l with
  | [] => [x]
  | y :: l' =>
      if String.leb (fst y) (fst x) then x :: l else y :: insert_desc x l'
  end.

(** [GET /]: every session folder with its metadata, [None] for the empty
    dictionary, by descending name. *)
Definition dashboard (st : store) : list (string * option meta) :=
  fold_right insert_desc [] (map (fun kf => (fst kf, meta_json (snd kf))) st).

End Service.

(* ------------------------------------------------------------------ *)
(** ** Theorems *)

Module SessionIdFacts.
Import SessionId.
Local Open Scope string_scope.

Lemma char_in_Occurs (c : ascii) (s : string) :
  char_in c s = true <-> Occurs c s.
Proof.
  induction s as [|d s IH]; simpl.
  - split; [discriminate | tauto].
  - rewrite orb_true_iff, IH, Ascii.eqb_eq. tauto.
Qed.

Lemma all_hex_spec (sid : string) :
  all_hex sid = true <-> forall c, Occurs c sid -> is_lower_hex c.
Proof.
  induction sid as [|d s IH]; cbn [all_hex Occurs].
  - split; [intros _ c [] | reflexivity].
  - rewrite andb_true_iff, IH, char_in_Occurs. split.
    + intros [Hd Hs] c [-> | Hc]; [exact Hd | exact (Hs c Hc)].
    + intros H. split; [apply H; now left | intros c Hc; apply H; now right].
Qed.

Lemma all_hex_false (sid : string) :
  all_hex sid = false <-> exists c, Occurs c sid /\ ~ is_lower_hex c.
Proof.
  induction sid as [|d s IH]; cbn [all_hex Occurs].
  - split; [discriminate | intros (c & [] & _)].
  - rewrite andb_false_iff, IH. split.
    + intros [Hd | (c & Hc & Hn)].
      * exists d. split; [now left |].
        intros Hh. apply (proj2 (char_in_Occurs _ _)) in Hh. congruence.
      * exists c. split; [now right | exact Hn].
    + intros (c & [-> | Hc] & Hn).
      * left. destruct (char_in d hex_alphabet) eqn:E; [|reflexivity].
        exfalso. apply Hn. now apply char_in_Occurs.
      * right. now exists c.
Qed.

(** C10.  [safe_session_id sid] raises [ValueError] exactly when [sid] is
    empty or holds a character outside [0-9a-f]; otherwise it returns
    [sid] itself.  An accepted identifier therefore has no ["/"], no
    backslash, no ["."] and no NUL, and is not empty. *)
Theorem safe_session_id_spec (sid : string) :
  (safe_session_id sid = Raise ValueError <->
     sid = "" \/ exists c, Occurs c sid /\ ~ is_lower_hex c)
  /\ (safe_session_id sid = Raise ValueError \/ safe_session_id sid = Ok sid)
  /\ (forall out, safe_session_id sid = Ok out ->
        out = sid /\ out <> ""
        /\ (forall c, Occurs c out -> is_lower_hex c)
        /\ ~ Occurs "/"%char out /\ ~ Occurs "\"%char out
        /\ ~ Occurs "."%char out /\ ~ Occurs "000"%char out).
Proof.
  unfold safe_session_id.
  destruct sid as [|d s]; cbn [is_empty orb].
  - split; [|split].
    + split; [now left | reflexivity].
    + now left.
    + discriminate.
  - destruct (all_hex (String d s)) eqn:E; cbn [negb].
    + pose proof (proj1 (all_hex_spec _) E) as Hall.
      split; [|split].
      * split; [discriminate |].
        intros [Hnil | (c & Hc & Hn)]; [discriminate |].
        exfalso. apply Hn, Hall, Hc.
      * now right.
      * intros out [= <-].
        assert (Hno : forall c, ~ is_lower_hex c -> ~ Occurs c (String d s))
          by (intros c Hn Hc; apply Hn, Hall, Hc).
        repeat split; try discriminate; try exact Hall;
          apply Hno; intros Hh; unfold is_lower_hex, hex_alphabet in Hh;
          simpl in Hh;
          repeat (destruct Hh as [Hh | Hh]; [discriminate |]); exact Hh.
    + split; [|split].
      * split; [|reflexivity].
        intros _. right. now apply all_hex_false.
      * now left.
      * discriminate.
Qed.

End SessionIdFacts.

(* ------------------------------------------------------------------ *)
(** ** Facts on the numeric helpers *)

Module NumFacts.
Import Num.
Local Open Scope Q_scope.

Lemma Qlt_bool_iff (x y : Q) : Qlt_bool x y = true <-> x < y.
Proof.
  unfold Qlt_bool. rewrite negb_true_iff. split.
  - intros H. apply Qnot_le_lt. intros Hle.
    apply Qle_bool_iff in Hle. congruence.
  - intros H. destruct (Qle_bool y x) eqn:E; [|reflexivity].
    apply Qle_bool_iff in E. exfalso. exact (Qlt_not_le _ _ H E).
Qed.

Lemma Qlt_bool_false (x y : Q) : Qlt_bool x y = false <-> y <= x.
Proof.
  unfold Qlt_bool. rewrite negb_false_iff. apply Qle_bool_iff.
Qed.

(** On a sample rate times a decimal constant, [int] is a quotient of
    integers. *)
Lemma int_trunc_scaled (Fs num : Z) (den : positive) :
  int_trunc (inject_Z Fs * (num # den)) = Z.quot (Fs * num) (Z.pos den).
Proof. reflexivity. Qed.

Lemma Qfloor_scaled (Fs num : Z) (den : positive) :
  Qfloor (inject_Z Fs * (num # den)) = (Fs * num / Z.pos den)%Z.
Proof. reflexivity. Qed.

Lemma round_half_even_near (x : Q) :
  Qabs (inject_Z (round_half_even x) - x) <= 1 # 2.
Proof.
  unfold round_half_even.
  pose proof (Qfloor_le x) as Hlo.
  pose proof (Qlt_floor x) as Hhi.
  rewrite inject_Z_plus in Hhi. change (inject_Z 1) with 1 in Hhi.
  apply Qabs_Qle_condition.
  destruct (Qcompare (x - inject_Z (Qfloor x)) 0.5) eqn:E.
  - apply Qeq_alt in E.
    destruct (Z.even (Qfloor x)).
    + lra.
    + rewrite inject_Z_plus. change (inject_Z 1) with 1. lra.
  - apply Qlt_alt in E. lra.
  - apply Qgt_alt in E. rewrite inject_Z_plus. change (inject_Z 1) with 1.
    lra.
Qed.

(** On the exact values, rounding to one decimal gives a multiple of one
    tenth within one twentieth of [x]. *)
Lemma py_round_1 (x : Q) :
  py_round x 1 == inject_Z (round_half_even (x * 10)) / 10
  /\ Qabs (py_round x 1 - x) <= 1 # 20.
Proof.
  unfold py_round. change (inject_Z (10 ^ Z.of_nat 1)) with 10.
  split; [reflexivity |].
  pose proof (round_half_even_near (x * 10)) as H.
  apply Qabs_Qle_condition in H. apply Qabs_Qle_condition.
  set (k := inject_Z (round_half_even (x * 10))) in *.
  assert (Hk : k / 10 == k * (1 # 10)) by (field).
  rewrite Hk. lra.
Qed.

End NumFacts.

(* ------------------------------------------------------------------ *)
(** ** Envelope smoothing: window length and output length *)

Module EnvelopeFacts.
Import Num NumFacts Envelope.
Local Open Scope Q_scope.

Lemma window_len_quot (Fs : Z) : window_len Fs = Z.max 1 (Fs * 5 / 100).
Proof.
  unfold window_len. change 0.05 with (5 # 100).
  rewrite int_trunc_scaled.
  destruct (Z.ltb_spec (Z.quot (Fs * 5) 100) 1);
    Z.to_euclidean_division_equations; lia.
Qed.

(** C5 (as amended).  The window length is the product [Fs * 0.05]
    truncated to an integer (its floor), and 1 when that is smaller
    than 1. *)
Theorem window_len_floor (Fs : Z) :
  window_len Fs = Z.max 1 (Qfloor (inject_Z Fs * 0.05)).
Proof.
  rewrite window_len_quot. change 0.05 with (5 # 100).
  now rewrite Qfloor_scaled.
Qed.

(** C5 (as stated) fails at [Fs = 1015]: the product is 50.75, the window
    has 50 samples, and rounding gives 51; 50 is more than one half away
    from the product, so no rounding rule gives it. *)
Lemma window_len_not_rounded :
  window_len 1015 <> Z.max 1 (round_half_even (inject_Z 1015 * 0.05))
  /\ window_len 1015 = 50%Z
  /\ 1 # 2 < Qabs (inject_Z (window_len 1015) - inject_Z 1015 * 0.05).
Proof.
  split; [|split].
  - vm_compute. discriminate.
  - reflexivity.
  - vm_compute. reflexivity.
Qed.

Lemma window_len_pos (Fs : Z) : (1 <= window_len Fs)%Z.
Proof. rewrite window_len_quot. lia. Qed.

Lemma box_kernel_length (w : Z) : length (box_kernel w) = Z.to_nat w.
Proof. unfold box_kernel. now rewrite length_map, repeat_length. Qed.

(** [mode="same"] returns as many entries as the longer operand has. *)
Lemma convolve_same_length (a v r : list Q) :
  convolve_same a v = Ok r -> length r = Nat.max (length a) (length v).
Proof.
  unfold convolve_same.
  destruct a as [|a0 a']; [discriminate |].
  destruct v as [|v0 v']; [discriminate |].
  destruct (Nat.ltb_spec (length (a0 :: a')) (length (v0 :: v'))) as [H | H];
    cbv iota beta; intros [= <-]; simpl in *;
    rewrite length_map, length_seq; lia.
Qed.

Lemma convolve_same_ok (a v : list Q) :
  a <> [] -> v <> [] -> exists r, convolve_same a v = Ok r.
Proof.
  intros Ha Hv. unfold convolve_same.
  destruct a as [|a0 a']; [congruence |].
  destruct v as [|v0 v']; [congruence |].
  destruct (length (a0 :: a') <? length (v0 :: v'))%nat; eexists; reflexivity.
Qed.

Lemma smooth_envelope_length (Fs : Z) (env es : list Q) :
  smooth_envelope Fs env = Ok es ->
  length es = Nat.max (length env) (Z.to_nat (window_len Fs)).
Proof.
  unfold smooth_envelope. intros H.
  apply convolve_same_length in H. now rewrite box_kernel_length in H.
Qed.

Lemma smooth_envelope_ok (Fs : Z) (env : list Q) :
  env <> [] -> exists es, smooth_envelope Fs env = Ok es.
Proof.
  intros Henv. apply convolve_same_ok; [exact Henv |].
  intros Hk. apply (f_equal (@length Q)) in Hk.
  rewrite box_kernel_length in Hk. simpl in Hk.
  pose proof (window_len_pos Fs). lia.
Qed.

(** C9, the failing input.  Ten samples at 1000 Hz: the window has 50
    samples, the smoothing returns 50 values and not 10. *)
Theorem smooth_envelope_short_input (env : list Q) :
  length env = 10%nat ->
  exists es, smooth_envelope 1000 env = Ok es
             /\ length es = 50%nat /\ length es <> length env.
Proof.
  intros Hlen.
  destruct (smooth_envelope_ok 1000 env) as [es Hes].
  - intros ->. discriminate.
  - exists es. pose proof (smooth_envelope_length _ _ _ Hes) as Hl.
    rewrite Hlen in Hl. change (Z.to_nat (window_len 1000)) with 50%nat in Hl.
    simpl in Hl. rewrite Hlen. repeat split; [exact Hes | exact Hl | lia].
Qed.

Lemma smooth_envelope_short_input_witness :
  length (repeat 1 10) = 10%nat
  /\ exists es, smooth_envelope 1000 (repeat 1 10) = Ok es
                /\ length es = 50%nat /\ length es <> length (repeat 1 10).
Proof.
  split; [reflexivity |].
  apply (smooth_envelope_short_input (repeat 1 10)). reflexivity.
Defined.

End EnvelopeFacts.

(* ------------------------------------------------------------------ *)
(** ** Normalizer *)

Module NormalizerFacts.
Import Num NumFacts Normalizer.
Local Open Scope Q_scope.

Lemma Qmax2_cases (x y : Q) :
  (Qmax2 x y = x /\ y <= x) \/ (Qmax2 x y = y /\ x <= y).
Proof.
  unfold Qmax2. destruct (Qle_bool x y) eqn:E.
  - right. split; [reflexivity | now apply Qle_bool_iff].
  - left. split; [reflexivity |].
    apply Qlt_le_weak, Qnot_le_lt. intros H.
    apply Qle_bool_iff in H. congruence.
Qed.

Lemma fold_max_spec (t : list Q) : forall h,
  (fold_left Qmax2 t h = h \/ In (fold_left Qmax2 t h) t)
  /\ h <= fold_left Qmax2 t h
  /\ (forall x, In x t -> x <= fold_left Qmax2 t h).
Proof.
  induction t as [|x t IH]; intros h; simpl.
  - split; [now left | split; [apply Qle_refl | intros ? []]].
  - destruct (IH (Qmax2 h x)) as (Hin & Hge & Hub).
    destruct (Qmax2_cases h x) as [[E Hle] | [E Hle]]; rewrite E in *.
    + split; [tauto | split; [exact Hge |]].
      intros z [<- | Hz]; [now apply Qle_trans with h | now apply Hub].
    + split; [|split].
      * destruct Hin as [-> | Hin]; right; [now left | now right].
      * now apply Qle_trans with x.
      * intros z [<- | Hz]; [exact Hge | now apply Hub].
Qed.

(** [np.max] returns an element of the array that bounds all others. *)
Lemma np_max_spec (l : list Q) (m : Q) :
  np_max l = Ok m -> In m l /\ forall x, In x l -> x <= m.
Proof.
  destruct l as [|h t]; [discriminate |]. intros [= <-].
  destruct (fold_max_spec t h) as (Hin & Hge & Hub). split.
  - destruct Hin as [-> | Hin]; [now left | now right].
  - intros x [<- | Hx]; [exact Hge | now apply Hub].
Qed.

Lemma np_max_ok (l : list Q) : l <> [] -> exists m, np_max l = Ok m.
Proof. destruct l; [congruence | eexists; reflexivity]. Qed.

Lemma peak_abs_spec (y : list Q) (p : Q) :
  peak_abs y = Ok p ->
  0 <= p /\ (exists s, In s y /\ p = Qabs s)
  /\ forall s, In s y -> Qabs s <= p.
Proof.
  unfold peak_abs. intros H. apply np_max_spec in H as [Hin Hub].
  apply in_map_iff in Hin as (s & Hs & Hin). repeat split.
  - rewrite <- Hs. apply Qabs_nonneg.
  - exists s. split; [exact Hin | now symmetry].
  - intros z Hz. apply Hub. now apply in_map.
Qed.

Lemma Qabs_div_pos (s p : Q) : 0 < p -> Qabs (s / p) == Qabs s / p.
Proof.
  intros Hp. unfold Qdiv. rewrite Qabs_Qmult, Qabs_Qinv.
  rewrite (Qabs_pos p) by now apply Qlt_le_weak.
  reflexivity.
Qed.

(** C2.  On a waveform whose peak absolute amplitude [p] is not zero the
    normalizer succeeds, returns every sample divided by [p], and the
    peak absolute amplitude of what it returns is 1. *)
Theorem normalize_nonsilent (y : list Q) (p : Q) :
  peak_abs y = Ok p -> ~ p == 0 ->
  normalize y = Ok (map (fun s => s / p) y)
  /\ exists q, peak_abs (map (fun s => s / p) y) = Ok q /\ q == 1.
Proof.
  intros Hp Hnz.
  assert (Hb : Qeq_bool p 0 = false).
  { destruct (Qeq_bool p 0) eqn:E; [|reflexivity].
    apply Qeq_bool_iff in E. contradiction. }
  split.
  - unfold normalize, avoid_all_zero. rewrite Hp. cbn [bind]. rewrite Hb.
    unfold divide_by_peak. rewrite Hp. reflexivity.
  - destruct (peak_abs_spec _ _ Hp) as (Hp0 & (s0 & Hs0 & Ep) & Hub).
    assert (Hpos : 0 < p).
    { destruct (Qlt_le_dec 0 p) as [|Hle]; [assumption |].
      exfalso. apply Hnz. now apply Qle_antisym. }
    destruct (np_max_ok (map Qabs (map (fun s => s / p) y)))
      as [q Hq].
    { destruct y; [destruct Hs0 | discriminate]. }
    exists q. split; [exact Hq |].
    apply np_max_spec in Hq as [Hin Hqub].
    apply Qle_antisym.
    + apply in_map_iff in Hin as (z & <- & Hin).
      apply in_map_iff in Hin as (s & <- & Hin).
      rewrite Qabs_div_pos by exact Hpos.
      apply Qle_shift_div_r; [exact Hpos |].
      rewrite Qmult_1_l. now apply Hub.
    + assert (H1 : Qabs (s0 / p) == 1).
      { rewrite Qabs_div_pos by exact Hpos. rewrite <- Ep.
        unfold Qdiv. now apply Qmult_inv_r. }
      rewrite <- H1. apply Hqub.
      apply (in_map Qabs _ (s0 / p)).
      exact (in_map (fun s => s / p) y s0 Hs0).
Qed.

Lemma normalize_nonsilent_witness :
  peak_abs [0.5; -2; 1] = Ok (Qabs (-2)) /\ ~ Qabs (-2) == 0
  /\ normalize [0.5; -2; 1] = Ok (map (fun s => s / Qabs (-2)) [0.5; -2; 1])
  /\ exists q, peak_abs (map (fun s => s / Qabs (-2)) [0.5; -2; 1]) = Ok q
               /\ q == 1.
Proof.
  split; [reflexivity |]. split; [discriminate |].
  apply (normalize_nonsilent [0.5; -2; 1] (Qabs (-2))).
  - reflexivity.
  - discriminate.
Defined.

Lemma normalize_length (y out : list Q) :
  normalize y = Ok out -> length out = length y.
Proof.
  unfold normalize, avoid_all_zero, divide_by_peak.
  destruct (peak_abs y) as [p|]; [cbn [bind] | discriminate].
  destruct (peak_abs _) as [p1|]; [cbn [bind] | discriminate].
  intros [= <-]. rewrite length_map.
  destruct (Qeq_bool p 0); [now rewrite length_map | reflexivity].
Qed.

(** C3 (as amended).  On a waveform of zeros the normalizer succeeds and
    returns a waveform of the same length whose every sample is 1: the
    constant added to each sample is divided by itself. *)
Theorem normalize_silent (y : list Q) :
  y <> [] -> Forall (fun s => s == 0) y ->
  exists out, normalize y = Ok out
              /\ length out = length y
              /\ Forall (fun s => s == 1) out.
Proof.
  intros Hne Hzero. rewrite Forall_forall in Hzero.
  destruct (np_max_ok (map Qabs y)) as [p Hp].
  { destruct y; [congruence | discriminate]. }
  fold (peak_abs y) in Hp.
  destruct (peak_abs_spec _ _ Hp) as (_ & (s0 & Hs0 & Ep) & _).
  assert (Hp0 : Qeq_bool p 0 = true).
  { apply Qeq_bool_iff. rewrite Ep, (Hzero _ Hs0). reflexivity. }
  set (y1 := map (fun s => s + tiny) y).
  destruct (np_max_ok (map Qabs y1)) as [p1 Hp1].
  { unfold y1. destruct y; [congruence | discriminate]. }
  fold (peak_abs y1) in Hp1.
  assert (Hp1t : p1 == tiny).
  { destruct (peak_abs_spec _ _ Hp1) as (_ & (s1 & Hs1 & Ep1) & _).
    unfold y1 in Hs1. apply in_map_iff in Hs1 as (s & <- & Hs).
    rewrite Ep1, (Hzero _ Hs). reflexivity. }
  exists (map (fun s => s / p1) y1). split; [|split].
  - unfold normalize, avoid_all_zero. rewrite Hp. cbn [bind]. rewrite Hp0.
    fold y1. unfold divide_by_peak. rewrite Hp1. reflexivity.
  - unfold y1. now rewrite !length_map.
  - apply Forall_forall. intros z Hz.
    apply in_map_iff in Hz as (s1 & <- & Hs1).
    unfold y1 in Hs1. apply in_map_iff in Hs1 as (s & <- & Hs).
    rewrite Hp1t, (Hzero _ Hs). reflexivity.
Qed.

Lemma normalize_silent_witness :
  [0; 0; 0] <> [] /\ Forall (fun s => s == 0) [0; 0; 0]
  /\ exists out, normalize [0; 0; 0] = Ok out
                 /\ length out = length [0; 0; 0]
                 /\ Forall (fun s => s == 1) out.
Proof.
  assert (Hne : [0; 0; 0] <> []) by discriminate.
  assert (Hz : Forall (fun s => s == 0) [0; 0; 0])
    by (repeat constructor).
  split; [exact Hne |]. split; [exact Hz |].
  exact (normalize_silent _ Hne Hz).
Defined.

(** C3 (as stated) fails on three zero samples: the normalizer returns
    samples equal to 1, none of them within [1e-12] of zero. *)
Lemma normalize_silent_not_small :
  exists out, normalize [0; 0; 0] = Ok out
              /\ Forall (fun s => s == 1) out
              /\ Forall (fun s => ~ Qabs s <= tiny) out
              /\ ~ (forall s, In s out -> Qabs s <= tiny).
Proof.
  eexists. split; [vm_compute; reflexivity |].
  split; [repeat constructor |].
  split; [repeat constructor; vm_compute; intros H; now apply H |].
  intros H. specialize (H _ (or_introl eq_refl)).
  vm_compute in H. now apply H.
Qed.

End NormalizerFacts.

(* ------------------------------------------------------------------ *)
(** ** Forward filter and the band-pass stage *)

Module FilterFacts.
Import Num Filter Pipeline.
Local Open Scope Q_scope.

Lemma run_filter_length (b0 : Q) (bt at_ xs : list Q) : forall z,
  length (run_filter b0 bt at_ z xs) = length xs.
Proof.
  induction xs as [|x xs IH]; intros z; simpl; [reflexivity |].
  now rewrite IH.
Qed.

(** The forward filter keeps the length of its input. *)
Lemma lfilter_length (b a x r : list Q) :
  lfilter b a x = Ok r -> length r = length x.
Proof.
  unfold lfilter.
  destruct a as [|a0 a']; [discriminate |].
  destruct b as [|b0 b']; [discriminate |].
  destruct (Qeq_bool a0 0); [discriminate |].
  destruct ((length (a0 :: a') =? 1)%nat && (length x =? 0)%nat);
    [discriminate |].
  intros [= <-]. apply run_filter_length.
Qed.

(** With a numerator, a nonzero leading denominator coefficient and at
    least one sample it does not raise. *)
Lemma lfilter_ok (b a x : list Q) :
  b <> [] -> ~ hd 0 a == 0 -> x <> [] -> exists r, lfilter b a x = Ok r.
Proof.
  intros Hb Ha Hx. unfold lfilter.
  destruct a as [|a0 a']; [exfalso; apply Ha; reflexivity |].
  destruct b as [|b0 b']; [congruence |].
  simpl in Ha.
  destruct (Qeq_bool a0 0) eqn:E.
  - apply Qeq_bool_iff in E. contradiction.
  - destruct x as [|x0 x']; [congruence |].
    change (length (x0 :: x') =? 0)%nat with false.
    rewrite andb_false_r. eexists. reflexivity.
Qed.

Section Bandpass.
Context {L : SignalLib} {HL : SignalLibLaws L}.

(** When the zero-phase filter raises on a non-empty waveform, whatever
    the exception, the band-pass stage itself does not raise: it returns
    what the forward filter [lfilter] computes from the same coefficients
    [b], [a] and the same samples, a sequence as long as the input. *)
Lemma bandpass_fallback (Fs : Z) (y b a : list Q) (e : exn) :
  butter_band Fs = Ok (b, a) ->
  filtfilt b a y = Raise e ->
  y <> [] ->
  exists out, bandpass Fs y = Ok out
              /\ lfilter b a y = Ok out
              /\ length out = length y.
Proof.
  intros Hbut Hff Hy.
  destruct (butter_band_shape Fs b a Hbut) as [Hb Ha].
  destruct (lfilter_ok b a y Hb Ha Hy) as [out Hout].
  assert (Hbp : bandpass Fs y = Ok out).
  { unfold bandpass. rewrite Hbut. cbn [bind]. now rewrite Hff. }
  exists out. repeat split.
  - exact Hbp.
  - exact Hout.
  - exact (lfilter_length b a y out Hout).
Qed.

(** On the zero-phase path the stage returns what [filtfilt] returns. *)
Lemma bandpass_zero_phase (Fs : Z) (y b a r : list Q) :
  butter_band Fs = Ok (b, a) ->
  filtfilt b a y = Ok r ->
  bandpass Fs y = Ok r.
Proof.
  intros Hbut Hff. unfold bandpass. rewrite Hbut. cbn [bind].
  now rewrite Hff.
Qed.

(** Both paths keep the length of the waveform. *)
Lemma bandpass_length (Fs : Z) (y out : list Q) :
  bandpass Fs y = Ok out -> length out = length y.
Proof.
  unfold bandpass.
  destruct (butter_band Fs) as [[b a]|]; [cbn [bind] | discriminate].
  destruct (filtfilt b a y) as [r|] eqn:E.
  - intros [= <-]. exact (filtfilt_length b a y r E).
  - apply lfilter_length.
Qed.

End Bandpass.

End FilterFacts.

(* ------------------------------------------------------------------ *)
(** ** The reference instance satisfies the laws *)

Module ReferenceFacts.
Import Num NumFacts Filter Pipeline Reference FilterFacts.
Local Open Scope Q_scope.

Lemma ref_filtfilt_length (b a x r : list Q) :
  ref_filtfilt b a x = Ok r -> length r = length x.
Proof.
  unfold ref_filtfilt.
  destruct (length x <=? 3 * Nat.max (length a) (length b))%nat;
    [discriminate |].
  destruct (lfilter b a x) as [fwd|] eqn:E1; [cbn [bind] | discriminate].
  destruct (lfilter b a (rev fwd)) as [bwd|] eqn:E2;
    [cbn [bind] | discriminate].
  intros [= <-].
  apply lfilter_length in E1, E2.
  now rewrite length_rev, E2, length_rev, E1.
Qed.

Lemma ref_lib_laws : SignalLibLaws ref_lib.
Proof.
  constructor.
  - intros Fs b a. cbn. unfold ref_butter.
    destruct (400 <? Fs)%Z; [|discriminate].
    intros [= <- <-]. split; [discriminate |].
    cbn. intros H. discriminate H.
  - intros b a x r. cbn. apply ref_filtfilt_length.
  - intros x. cbn. apply length_map.
Qed.

(** Rounding on the exact values obeys the laws, for every number of
    decimals. *)
Lemma ref_round_laws : FloatRoundLaws ref_round.
Proof.
  constructor; intros x nd; cbn [round_decimals ref_round]; unfold py_round;
    set (s := inject_Z (10 ^ Z.of_nat nd)).
  - now exists (round_half_even (x * s)).
  - assert (Hs : 0 < s).
    { unfold s. change 0 with (inject_Z 0). rewrite <- Zlt_Qlt.
      apply Z.pow_pos_nonneg; lia. }
    assert (Hs0 : ~ s == 0).
    { intros H0. rewrite H0 in Hs. exact (Qlt_irrefl _ Hs). }
    pose proof (round_half_even_near (x * s)) as H.
    set (k := inject_Z (round_half_even (x * s))) in *.
    assert (E : k / s - x == (k - x * s) / s) by (field; exact Hs0).
    rewrite E. unfold Qdiv at 1. rewrite Qabs_Qmult.
    rewrite (Qabs_pos (/ s)) by (apply Qlt_le_weak, Qinv_lt_0_compat, Hs).
    assert (E2 : 1 / (2 * s) == (1 # 2) * / s) by (field; exact Hs0).
    rewrite E2.
    apply Qmult_le_compat_r; [exact H |].
    apply Qlt_le_weak, Qinv_lt_0_compat, Hs.
Qed.

End ReferenceFacts.

(* ------------------------------------------------------------------ *)
(** ** Subsequences and neighbour relations *)

Module SeqFacts.

Lemma Subseq_length {A : Type} (s l : list A) :
  Subseq s l -> (length s <= length l)%nat.
Proof. induction 1; simpl; lia. Qed.

Lemma Subseq_In {A : Type} (s l : list A) :
  Subseq s l -> forall x, In x s -> In x l.
Proof.
  induction 1 as [|x s l _ IH | x s l _ IH]; intros y Hy.
  - exact Hy.
  - destruct Hy as [-> | Hy]; [now left | right; now apply IH].
  - right. now apply IH.
Qed.

Lemma Subseq_refl {A : Type} (l : list A) : Subseq l l.
Proof. induction l; now constructor. Qed.

Lemma Subseq_StronglySorted {A : Type} (R : A -> A -> Prop) (s l : list A) :
  Subseq s l -> StronglySorted R l -> StronglySorted R s.
Proof.
  induction 1 as [|x s l Hs IH | x s l Hs IH]; intros Hl.
  - constructor.
  - apply StronglySorted_inv in Hl as [Hl Hx]. constructor; [now apply IH |].
    rewrite Forall_forall in *. intros y Hy.
    apply Hx. exact (Subseq_In _ _ Hs y Hy).
  - apply StronglySorted_inv in Hl as [Hl _]. now apply IH.
Qed.

(** Appending an element that is related to the last one keeps the
    neighbour relation. *)
Lemma Sorted_snoc {A : Type} (R : A -> A -> Prop) (d p : A) (g : list A) :
  Sorted R g -> (g = [] \/ R (last g d) p) -> Sorted R (g ++ [p]).
Proof.
  induction g as [|a g IH]; intros Hg Hp; simpl.
  - repeat constructor.
  - apply Sorted_inv in Hg as [Hg Ha].
    destruct Hp as [Hp | Hp]; [discriminate |].
    destruct g as [|b g].
    + simpl in *. repeat constructor. exact Hp.
    + constructor.
      * apply IH; [exact Hg | right; exact Hp].
      * simpl. constructor. now apply HdRel_inv in Ha.
Qed.

(** A strongly sorted list relates every pair of positions in order. *)
Lemma StronglySorted_nth {A : Type} (R : A -> A -> Prop) (d : A)
      (l : list A) :
  StronglySorted R l ->
  forall i j, (i < j < length l)%nat -> R (nth i l d) (nth j l d).
Proof.
  induction 1 as [|a l Hl IH Ha]; intros i j Hij; simpl in Hij; [lia |].
  destruct j as [|j]; [lia |]. destruct i as [|i]; simpl.
  - rewrite Forall_forall in Ha. apply Ha, nth_In. lia.
  - apply IH. lia.
Qed.

End SeqFacts.

(* ------------------------------------------------------------------ *)
(** ** Beat grouper and rate estimator *)

Module BeatsFacts.
Import Num NumFacts Beats SeqFacts.
Local Open Scope Q_scope.

Lemma group_step_cases (Fs : Z) (g : list Z) (p : Z) :
  (group_step Fs g p = g ++ [p]
   /\ (g = [] \/ far_apart Fs (last g 0%Z) p))
  \/ (group_step Fs g p = g
      /\ g <> [] /\ ~ far_apart Fs (last g 0%Z) p).
Proof.
  unfold group_step, far_apart. destruct g as [|a g]; [left; split; auto |].
  cbn [is_nil orb].
  destruct (Qlt_bool _ _) eqn:E.
  - apply Qlt_bool_iff in E. left. split; [reflexivity | now right].
  - apply Qlt_bool_false in E. right. split; [reflexivity |].
    split; [discriminate |]. now apply Qle_not_lt.
Qed.

(** The loop only appends, and what it appends is the input with
    elements dropped. *)
Lemma fold_group_prefix (Fs : Z) (l : list Z) : forall g,
  exists s, fold_left (group_step Fs) l g = g ++ s /\ Subseq s l.
Proof.
  induction l as [|a l IH]; intros g; simpl.
  - exists []. split; [now rewrite app_nil_r | constructor].
  - destruct (IH (group_step Fs g a)) as (s & Hs & Hsub).
    destruct (group_step_cases Fs g a) as [[E _] | [E _]];
      rewrite E in *.
    + exists (a :: s). split; [now rewrite Hs, <- app_assoc |].
      now constructor.
    + exists s. split; [exact Hs | now constructor].
Qed.

Lemma group_beats_Subseq (Fs : Z) (l : list Z) :
  Subseq (group_beats Fs l) l.
Proof.
  destruct (fold_group_prefix Fs l []) as (s & Hs & Hsub).
  unfold group_beats. now rewrite Hs.
Qed.

Lemma group_beats_length_le (Fs : Z) (l : list Z) :
  (length (group_beats Fs l) <= length l)%nat.
Proof. apply Subseq_length, group_beats_Subseq. Qed.

Lemma group_beats_snoc (Fs : Z) (l : list Z) (p : Z) :
  group_beats Fs (l ++ [p]) = group_step Fs (group_beats Fs l) p.
Proof. unfold group_beats. now rewrite fold_left_app. Qed.

Lemma group_beats_app (Fs : Z) (l l2 : list Z) :
  exists s, group_beats Fs (l ++ l2) = group_beats Fs l ++ s.
Proof.
  unfold group_beats. rewrite fold_left_app.
  destruct (fold_group_prefix Fs l2 (fold_left (group_step Fs) l []))
    as (s & Hs & _).
  now exists s.
Qed.

(** The first peak is always kept: the grouped list is empty only for
    an empty input. *)
Lemma group_beats_nil_iff (Fs : Z) (l : list Z) :
  group_beats Fs l = [] <-> l = [].
Proof.
  split; [|now intros ->].
  destruct l as [|a l]; [reflexivity |]. unfold group_beats. simpl.
  destruct (fold_group_prefix Fs l (group_step Fs [] a)) as (s & Hs & _).
  rewrite Hs. discriminate.
Qed.

Lemma fold_group_spaced (Fs : Z) (l : list Z) : forall g,
  Sorted (far_apart Fs) g ->
  Sorted (far_apart Fs) (fold_left (group_step Fs) l g).
Proof.
  induction l as [|a l IH]; intros g Hg; simpl; [exact Hg |].
  apply IH.
  destruct (group_step_cases Fs g a) as [[E Hc] | [E _]]; rewrite E.
  - now apply Sorted_snoc with (d := 0%Z).
  - exact Hg.
Qed.

Lemma group_beats_spaced (Fs : Z) (l : list Z) :
  Sorted (far_apart Fs) (group_beats Fs l).
Proof. apply fold_group_spaced. constructor. Qed.

(** C7.  Reading the peaks in order, the peak [p] that follows the peaks
    [l] is kept exactly when it is the first one or lies more than
    [0.6 * Fs] samples after the last beat kept so far, and is dropped
    otherwise; beats once kept stay; neighbouring grouped beats are more
    than [0.6 * Fs] samples apart. *)
Theorem group_beats_rule (Fs : Z) (l : list Z) (p : Z) :
  let g := group_beats Fs l in
  let kept := l = [] \/ far_apart Fs (last g 0%Z) p in
  (group_beats Fs (l ++ [p]) = g ++ [p] <-> kept)
  /\ (group_beats Fs (l ++ [p]) = g <-> ~ kept)
  /\ (forall l2, exists s, group_beats Fs (l ++ l2) = g ++ s)
  /\ Sorted (far_apart Fs) (group_beats Fs (l ++ [p])).
Proof.
  intros g kept. subst kept.
  pose proof (group_beats_spaced Fs (l ++ [p])) as Hsp.
  rewrite group_beats_snoc in *. fold g in Hsp |- *.
  assert (Hneq : g ++ [p] <> g).
  { intros H. apply (f_equal (@length Z)) in H.
    rewrite length_app in H. simpl in H. lia. }
  assert (Hnil : g = [] <-> l = []) by apply group_beats_nil_iff.
  destruct (group_step_cases Fs g p) as [[E Hc] | [E [Hne Hc]]];
    rewrite E in *.
  - split; [|split; [|split]].
    + split; [intros _ | reflexivity]. tauto.
    + split; [intros H; now apply Hneq in H | tauto].
    + intros l2. apply group_beats_app.
    + exact Hsp.
  - split; [|split; [|split]].
    + split; [intros H; symmetry in H; now apply Hneq in H | tauto].
    + split; [intros _; tauto | reflexivity].
    + intros l2. apply group_beats_app.
    + exact Hsp.
Qed.

(** C8.  The grouped beats are the raw peaks with some dropped: at most
    as many, in the same order, and ascending when the raw peaks are. *)
Theorem group_beats_drops_only (Fs : Z) (l : list Z) :
  (length (group_beats Fs l) <= length l)%nat
  /\ Subseq (group_beats Fs l) l
  /\ (StronglySorted Z.lt l -> StronglySorted Z.lt (group_beats Fs l)).
Proof.
  split; [apply group_beats_length_le |].
  split; [apply group_beats_Subseq |].
  apply Subseq_StronglySorted, group_beats_Subseq.
Qed.

(** With a non-negative sample rate the grouped beats ascend whatever
    the order of the raw peaks. *)
Lemma group_beats_ascending (Fs : Z) (l : list Z) :
  (0 <= Fs)%Z -> Sorted Z.lt (group_beats Fs l).
Proof.
  intros HFs. pose proof (group_beats_spaced Fs l) as H.
  induction H as [|a g Hg IH Ha]; constructor; [exact IH |].
  destruct Ha as [|b g' Hab]; constructor. unfold far_apart in Hab.
  assert (0 <= 0.6 * inject_Z Fs).
  { apply Qmult_le_0_compat; [discriminate |].
    change 0 with (inject_Z 0). now rewrite <- Zle_Qle. }
  assert (Hpos : inject_Z 0 < inject_Z (b - a)) by
    (change (inject_Z 0) with 0; lra).
  rewrite <- Zlt_Qlt in Hpos. lia.
Qed.

(** A zero or negative duration gives a rate of zero. *)
Lemma estimate_bpm_no_duration (n : nat) (d : Q) :
  d <= 0 -> estimate_bpm n d = 0.
Proof.
  intros Hd. unfold estimate_bpm.
  destruct (Qlt_bool 0 d) eqn:E; [|reflexivity].
  apply Qlt_bool_iff in E. lra.
Qed.

Lemma estimate_bpm_pos (n : nat) (d : Q) :
  0 < d -> estimate_bpm n d = inject_Z (Z.of_nat n) / (d / 60).
Proof.
  intros Hd. unfold estimate_bpm.
  apply Qlt_bool_iff in Hd. now rewrite Hd.
Qed.

End BeatsFacts.

(* ------------------------------------------------------------------ *)
(** ** Beat detector *)

Module PeaksFacts.
Import Num NumFacts Peaks SeqFacts.
Local Open Scope Q_scope.

(** *** The local-maximum scan *)

Lemma plateau_end_ge (x : list Q) (xi : Q) (i_max fuel : nat) : forall i_ahead,
  (i_ahead <= plateau_end fuel x xi i_ahead i_max)%nat.
Proof.
  induction fuel as [|fuel IH]; intros i_ahead; simpl; [lia |].
  destruct (_ && _); [specialize (IH (S i_ahead)) |]; lia.
Qed.

(** With enough fuel the plateau walk stops because its loop condition
    fails, not because the fuel is spent. *)
Lemma plateau_end_exit (x : list Q) (xi : Q) (i_max fuel : nat) :
  forall i_ahead,
  (i_max <= i_ahead + fuel)%nat ->
  let r := plateau_end fuel x xi i_ahead i_max in
  (r <? i_max)%nat && Qeq_bool (nth r x 0) xi = false.
Proof.
  induction fuel as [|fuel IH]; intros i_ahead Hfuel; simpl.
  - apply andb_false_iff. left. apply Nat.ltb_ge. lia.
  - destruct ((i_ahead <? i_max)%nat && Qeq_bool (nth i_ahead x 0) xi) eqn:E.
    + apply IH. lia.
    + exact E.
Qed.

(** The peaks reported from index [i] on ascend and are at least [i]. *)
Lemma local_maxima_from_sorted (x : list Q) (i_max fuel : nat) : forall i,
  StronglySorted lt (local_maxima_from fuel x i i_max)
  /\ Forall (fun p => (i <= p)%nat) (local_maxima_from fuel x i i_max).
Proof.
  induction fuel as [|fuel IH]; intros i; cbn [local_maxima_from];
    [split; constructor |].
  destruct (i <? i_max)%nat; [|split; constructor].
  assert (Hskip :
    StronglySorted lt (local_maxima_from fuel x (S i) i_max)
    /\ Forall (fun p => (i <= p)%nat) (local_maxima_from fuel x (S i) i_max)).
  { destruct (IH (S i)) as [Hs Hge]. split; [exact Hs |].
    eapply Forall_impl; [|exact Hge]. simpl. intros; lia. }
  destruct (Qlt_bool (nth (i - 1) x 0) (nth i x 0)); [|exact Hskip].
  pose proof (plateau_end_ge x (nth i x 0) i_max (length x) (S i)) as Hia.
  set (ia := plateau_end (length x) x (nth i x 0) (S i) i_max) in *.
  clearbody ia.
  destruct (Qlt_bool (nth ia x 0) (nth i x 0)); [|exact Hskip].
  destruct (IH (S ia)) as [Hs Hge].
  assert (Hmid : (i <= (i + (ia - 1)) / 2 <= ia - 1)%nat).
  { split.
    - apply Nat.div_le_lower_bound; lia.
    - apply Nat.Div0.div_le_upper_bound. lia. }
  split; constructor; try assumption.
  - eapply Forall_impl; [|exact Hge]. cbv beta. intros; lia.
  - lia.
  - eapply Forall_impl; [|exact Hge]. cbv beta. intros; lia.
Qed.

Lemma local_maxima_sorted (x : list Q) : StronglySorted lt (local_maxima x).
Proof. apply local_maxima_from_sorted. Qed.

(** The fuel [length x] is enough: more fuel changes nothing. *)
Lemma local_maxima_from_fuel (x : list Q) (i_max fuel : nat) :
  forall fuel' i,
  (i_max <= i + fuel)%nat -> (i_max <= i + fuel')%nat ->
  local_maxima_from fuel x i i_max = local_maxima_from fuel' x i i_max.
Proof.
  induction fuel as [|fuel IH]; intros fuel' i H H'.
  - destruct fuel' as [|fuel']; [reflexivity |]. cbn [local_maxima_from].
    destruct (Nat.ltb_spec i i_max); [lia | reflexivity].
  - destruct fuel' as [|fuel']; cbn [local_maxima_from].
    + destruct (Nat.ltb_spec i i_max); [lia | reflexivity].
    + destruct (Nat.ltb_spec i i_max) as [Hi | Hi]; [|reflexivity].
      rewrite (IH fuel' (S i)) by lia.
      destruct (Qlt_bool (nth (i - 1) x 0) (nth i x 0)); [|reflexivity].
      pose proof (plateau_end_ge x (nth i x 0) i_max (length x) (S i)) as Hia.
      set (ia := plateau_end (length x) x (nth i x 0) (S i) i_max) in *.
      clearbody ia.
      destruct (Qlt_bool (nth ia x 0) (nth i x 0)); [|reflexivity].
      f_equal. apply IH; lia.
Qed.

(** *** Selection by height and masking *)

Lemma select_by_height_spec (x : list Q) (h : Q) (pk : list nat) (p : nat) :
  In p (select_by_height x h pk) -> In p pk /\ h <= nth p x 0.
Proof.
  unfold select_by_height. rewrite filter_In.
  intros [Hin Hh]. split; [exact Hin | now apply Qle_bool_iff].
Qed.

Lemma select_by_height_Subseq (x : list Q) (h : Q) (pk : list nat) :
  Subseq (select_by_height x h pk) pk.
Proof.
  unfold select_by_height.
  induction pk as [|p pk IH]; simpl; [constructor |].
  destruct (Qle_bool h (nth p x 0)); now constructor.
Qed.

Lemma Subseq_nil_l {A : Type} (l : list A) : Subseq [] l.
Proof. induction l; now constructor. Qed.

Lemma mask_Subseq (pk : list nat) : forall keep, Subseq (mask pk keep) pk.
Proof.
  induction pk as [|p pk IH]; intros keep; simpl; [constructor |].
  destruct keep as [|k keep]; [apply Subseq_nil_l |].
  destruct k; constructor; apply IH.
Qed.

Lemma In_mask (pk : list nat) : forall keep a,
  In a (mask pk keep) ->
  exists j, (j < length pk)%nat /\ nth j pk O = a /\ nth j keep false = true.
Proof.
  induction pk as [|p pk IH]; intros keep a Ha; simpl in Ha; [destruct Ha |].
  destruct keep as [|k keep]; [destruct Ha |].
  destruct k.
  - destruct Ha as [<- | Ha].
    + exists O. simpl. repeat split. lia.
    + destruct (IH keep a Ha) as (j & Hj & Hp & Hk).
      exists (S j). simpl. repeat split; [lia | exact Hp | exact Hk].
  - destruct (IH keep a Ha) as (j & Hj & Hp & Hk).
    exists (S j). simpl. repeat split; [lia | exact Hp | exact Hk].
Qed.

(** *** Clearing entries of the keep array *)

Lemma nth_clear (keep : list bool) : forall k m,
  nth m (clear k keep) false = true ->
  nth m keep false = true /\ m <> k.
Proof.
  induction keep as [|h t IH]; intros k m H.
  - destruct k, m; discriminate.
  - destruct k as [|k]; destruct m as [|m]; simpl in *.
    + discriminate.
    + split; [exact H | lia].
    + split; [exact H | lia].
    + destruct (IH k m H). split; [assumption | lia].
Qed.

(** *** Suppression of peaks closer than the minimum distance *)

Section Distance.
Variable pk : list nat.
Variable d : Z.
Hypothesis Hasc : StronglySorted lt pk.

Let at_ (i : nat) : Z := Z.of_nat (nth i pk O).

Lemma pk_lt (i j : nat) : (i < j < length pk)%nat -> (at_ i < at_ j)%Z.
Proof.
  intros Hij. unfold at_.
  pose proof (StronglySorted_nth lt O pk Hasc i j Hij). lia.
Qed.

Lemma clear_left_mono (pj : nat) : forall k1 keep m,
  nth m (clear_left pk pj d k1 keep) false = true ->
  nth m keep false = true.
Proof.
  induction k1 as [|k IH]; intros keep m H; simpl in H; [exact H |].
  destruct (_ <? _)%Z; [|exact H].
  apply IH in H. now apply nth_clear in H.
Qed.

(** What survives to the left of [k1] is at least [d] below [pj]. *)
Lemma clear_left_far (pj : nat) : forall k1 keep m,
  (k1 <= length pk)%nat ->
  nth m (clear_left pk pj d k1 keep) false = true ->
  (m < k1)%nat -> (d <= Z.of_nat pj - at_ m)%Z.
Proof.
  induction k1 as [|k IH]; intros keep m Hk H Hm; [lia |].
  simpl in H. fold (at_ k) in H.
  destruct (Z.ltb_spec (Z.of_nat pj - at_ k) d) as [Hlt | Hge].
  - destruct (Nat.eq_dec m k) as [-> | Hne].
    + apply clear_left_mono, nth_clear in H. now destruct H.
    + apply (IH (clear k keep) m); [lia | exact H | lia].
  - destruct (Nat.eq_dec m k) as [-> | Hne]; [exact Hge |].
    assert (at_ m < at_ k)%Z by (apply pk_lt; lia). lia.
Qed.

Lemma clear_right_mono (pj : nat) : forall fuel k keep m,
  nth m (clear_right fuel pk pj d k keep) false = true ->
  nth m keep false = true.
Proof.
  induction fuel as [|fuel IH]; intros k keep m H; simpl in H;
    [exact H |].
  destruct (_ && _); [|exact H].
  apply IH in H. now apply nth_clear in H.
Qed.

(** With enough fuel, what survives from [k] on is at least [d] above
    [pj]. *)
Lemma clear_right_far (pj : nat) : forall fuel k keep m,
  (length pk <= k + fuel)%nat ->
  nth m (clear_right fuel pk pj d k keep) false = true ->
  (k <= m < length pk)%nat -> (d <= at_ m - Z.of_nat pj)%Z.
Proof.
  induction fuel as [|fuel IH]; intros k keep m Hf H Hm; [lia |].
  simpl in H. fold (at_ k) in H.
  destruct (Nat.ltb_spec k (length pk)) as [Hk | Hk]; [|lia].
  cbn [andb] in H.
  destruct (Z.ltb_spec (at_ k - Z.of_nat pj) d) as [Hlt | Hge].
  - destruct (Nat.eq_dec m k) as [-> | Hne].
    + apply clear_right_mono, nth_clear in H. now destruct H.
    + apply (IH (S k) (clear k keep) m); [lia | exact H | lia].
  - destruct (Nat.eq_dec m k) as [-> | Hne]; [exact Hge |].
    assert (at_ k < at_ m)%Z by (apply pk_lt; lia). lia.
Qed.

Lemma suppress_around_mono (keep : list bool) (j m : nat) :
  nth m (suppress_around pk d keep j) false = true ->
  nth m keep false = true.
Proof.
  unfold suppress_around. destruct (nth j keep false); [|tauto].
  intros H. now apply clear_right_mono, clear_left_mono in H.
Qed.

(** After position [j] has been visited and is kept, every other kept
    position is at least [d] away from it. *)
Lemma suppress_around_far (keep : list bool) (j m : nat) :
  (j < length pk)%nat -> (m < length pk)%nat ->
  nth j (suppress_around pk d keep j) false = true ->
  nth m (suppress_around pk d keep j) false = true ->
  ((m < j)%nat -> (d <= at_ j - at_ m)%Z)
  /\ ((j < m)%nat -> (d <= at_ m - at_ j)%Z).
Proof.
  intros Hj Hm Hkj Hkm.
  apply suppress_around_mono in Hkj.
  unfold suppress_around in Hkm. rewrite Hkj in Hkm. split; intros Hlt.
  - apply clear_right_mono in Hkm.
    apply (clear_left_far (nth j pk O) j keep m); [lia | exact Hkm | lia].
  - apply (clear_right_far (nth j pk O) (length pk) (S j)
             (clear_left pk (nth j pk O) d j keep) m);
      [lia | exact Hkm | lia].
Qed.

Lemma fold_suppress_mono (order : list nat) : forall keep m,
  nth m (fold_left (suppress_around pk d) order keep) false = true ->
  nth m keep false = true.
Proof.
  induction order as [|j order IH]; intros keep m H; simpl in H;
    [exact H |].
  apply IH in H. now apply suppress_around_mono in H.
Qed.

(** Once every position has been visited, any two kept positions are
    at least [d] apart, whatever the visiting order. *)
Lemma fold_suppress_far (order : list nat) : forall keep j m,
  In j order -> (j < length pk)%nat -> (m < length pk)%nat ->
  nth j (fold_left (suppress_around pk d) order keep) false = true ->
  nth m (fold_left (suppress_around pk d) order keep) false = true ->
  ((m < j)%nat -> (d <= at_ j - at_ m)%Z)
  /\ ((j < m)%nat -> (d <= at_ m - at_ j)%Z).
Proof.
  induction order as [|j0 order IH]; intros keep j m Hin Hj Hm Hkj Hkm;
    [destruct Hin |].
  simpl in Hkj, Hkm. destruct Hin as [-> | Hin].
  - apply fold_suppress_mono in Hkj, Hkm.
    now apply suppress_around_far with (keep := keep).
  - now apply (IH (suppress_around pk d keep j0)).
Qed.

End Distance.

(** *** The visiting order contains every position *)

Lemma In_insert_by (prio : list Q) (j : nat) (l : list nat) (x : nat) :
  In x (insert_by prio j l) <-> x = j \/ In x l.
Proof.
  induction l as [|k l IH]; simpl.
  - intuition.
  - destruct (Qle_bool _ _); simpl; [intuition |].
    rewrite IH. intuition.
Qed.

Lemma In_argsort (prio : list Q) (j : nat) :
  In j (argsort prio) <-> (j < length prio)%nat.
Proof.
  unfold argsort.
  assert (H : forall l, In j (fold_right (insert_by prio) [] l) <-> In j l).
  { induction l as [|k l IH]; simpl; [tauto |].
    rewrite In_insert_by, IH. intuition. }
  rewrite H, in_seq. lia.
Qed.

(** *** [find_peaks] *)

(** The peaks returned ascend, reach the height asked for, and any two
    of them are at least [distance] apart. *)
Lemma find_peaks_spec (x : list Q) (h : Q) (d : Z) (out : list nat) :
  find_peaks x h d = Ok out ->
  (1 <= d)%Z
  /\ StronglySorted lt out
  /\ Forall (fun p => h <= nth p x 0) out
  /\ forall a b, In a out -> In b out -> (a < b)%nat ->
                 (d <= Z.of_nat b - Z.of_nat a)%Z.
Proof.
  unfold find_peaks.
  destruct (Z.ltb_spec d 1) as [Hd | Hd]; [discriminate |].
  set (pk := select_by_height x h (local_maxima x)).
  set (keep := select_by_peak_distance pk _ d).
  intros [= <-].
  assert (Hasc : StronglySorted lt pk).
  { apply Subseq_StronglySorted with (l := local_maxima x).
    - apply select_by_height_Subseq.
    - apply local_maxima_sorted. }
  split; [exact Hd |]. split; [|split].
  - apply Subseq_StronglySorted with (l := pk);
      [apply mask_Subseq | exact Hasc].
  - apply Forall_forall. intros p Hp.
    apply (Subseq_In _ _ (mask_Subseq pk keep)) in Hp.
    now apply select_by_height_spec in Hp.
  - intros a b Ha Hb Hab.
    apply In_mask in Ha as (ja & Hja & <- & Hka).
    apply In_mask in Hb as (jb & Hjb & <- & Hkb).
    assert (Hord : In ja (rev (argsort (map (fun p => nth p x 0) pk)))).
    { apply in_rev. rewrite rev_involutive.
      apply In_argsort. now rewrite length_map. }
    destruct (fold_suppress_far pk d Hasc _ _ ja jb Hord Hja Hjb Hka Hkb)
      as [Hl Hr].
    destruct (Nat.lt_trichotomy jb ja) as [H | [H | H]].
    + specialize (Hl H). lia.
    + subst. lia.
    + exact (Hr H).
Qed.


(** *** The detector of the pipeline *)

Lemma min_distance_quot (Fs : Z) : min_distance Fs = Z.quot (2 * Fs) 10.
Proof. reflexivity. Qed.

Lemma min_distance_floor (Fs : Z) :
  (0 <= Fs)%Z -> min_distance Fs = Qfloor (0.2 * inject_Z Fs).
Proof.
  intros HFs. rewrite min_distance_quot.
  change (Qfloor (0.2 * inject_Z Fs)) with (2 * Fs / 10)%Z.
  apply Z.quot_div_nonneg; lia.
Qed.

Lemma StronglySorted_pairwise (R : nat -> nat -> Prop) (l : list nat) :
  StronglySorted lt l ->
  (forall a b, In a l -> In b l -> (a < b)%nat -> R a b) ->
  StronglySorted R l.
Proof.
  induction 1 as [|a l Hl IH Ha]; intros HR; constructor.
  - apply IH. intros x y Hx Hy. apply HR; now right.
  - rewrite Forall_forall in *. intros b Hb.
    apply HR; [now left | now right | now apply Ha].
Qed.

(** C6 (as amended).  The threshold is 0.3 times the largest value of the
    smoothed envelope; every raw peak has an envelope value of at least
    the threshold; and any two raw peaks, neighbours in particular, are at
    least [int(0.2 * Fs)] samples apart, the product truncated to an
    integer. *)
Theorem raw_peaks_spacing_and_height
        (Fs : Z) (env : list Q) (th : Q) (pk : list nat) :
  detect_peaks Fs env = Ok (th, pk) ->
  (exists m, np_max env = Ok m /\ th = 0.3 * m)
  /\ min_distance Fs = Qfloor (0.2 * inject_Z Fs)
  /\ StronglySorted
       (fun a b => (min_distance Fs <= Z.of_nat b - Z.of_nat a)%Z) pk
  /\ Forall (fun p => th <= nth p env 0) pk.
Proof.
  unfold detect_peaks.
  destruct (np_max env) as [m|] eqn:Em; [cbn [bind] | discriminate].
  destruct (find_peaks env (0.3 * m) (min_distance Fs)) as [out|] eqn:Ef;
    [cbn [bind] | discriminate].
  intros [= <- <-].
  apply find_peaks_spec in Ef as (Hd & Hasc & Hh & Hfar).
  split; [now exists m |]. split; [|split].
  - apply min_distance_floor. rewrite min_distance_quot in Hd.
    destruct (Z_lt_le_dec Fs 0) as [Hneg | Hpos]; [exfalso | exact Hpos].
    revert Hd. Z.to_euclidean_division_equations. lia.
  - now apply StronglySorted_pairwise.
  - exact Hh.
Qed.

Lemma raw_peaks_spacing_and_height_witness :
  detect_peaks 401 Reference.two_spikes = Ok (0.3 * 1, [1; 81]%nat)
  /\ (exists m, np_max Reference.two_spikes = Ok m /\ 0.3 * 1 = 0.3 * m)
  /\ min_distance 401 = Qfloor (0.2 * inject_Z 401)
  /\ StronglySorted
       (fun a b => (min_distance 401 <= Z.of_nat b - Z.of_nat a)%Z)
       [1; 81]%nat
  /\ Forall (fun p => 0.3 * 1 <= nth p Reference.two_spikes 0) [1; 81]%nat.
Proof.
  assert (H : detect_peaks 401 Reference.two_spikes
              = Ok (0.3 * 1, [1; 81]%nat)) by (vm_compute; reflexivity).
  split; [exact H |].
  exact (raw_peaks_spacing_and_height 401 Reference.two_spikes _ _ H).
Defined.

(** C6 (as stated) fails at 401 Hz: the minimum distance handed to the peak
    finder is [int(80.2) = 80], the envelope with spikes at index 1 and
    index 81 yields both as raw peaks, and they are 80 samples apart,
    fewer than [0.2 * 401 = 80.2]. *)
Lemma raw_peaks_closer_than_fifth :
  detect_peaks 401 Reference.two_spikes = Ok (0.3 * 1, [1; 81]%nat)
  /\ min_distance 401 = 80%Z
  /\ ~ (0.2 * inject_Z 401 <= inject_Z (Z.of_nat 81 - Z.of_nat 1)).
Proof.
  split; [vm_compute; reflexivity |].
  split; [reflexivity |].
  vm_compute. intros H. now apply H.
Qed.

End PeaksFacts.

(* ------------------------------------------------------------------ *)
(** ** The pipeline as a whole *)

Module PipelineFacts.
Import Num NumFacts Normalizer Filter Envelope Peaks Beats Pipeline.
Import NormalizerFacts EnvelopeFacts FilterFacts BeatsFacts.
Local Open Scope Q_scope.

(** A successful run went through every stage. *)
Lemma process_heartbeat_inv (L : SignalLib) (R : FloatRound)
      (inp : audio) (Fs : Z) (r : analysis) :
  process_heartbeat inp Fs = Ok r ->
  exists y dur yf es th pk,
    normalize (to_mono inp) = Ok y
    /\ duration_of (length y) Fs = Ok dur
    /\ bandpass Fs y = Ok yf
    /\ smooth_envelope Fs (hilbert_abs yf) = Ok es
    /\ detect_peaks Fs es = Ok (th, pk)
    /\ plot_tracks (length y) [y; yf; es] = Ok tt
    /\ r = {| y_norm := y;
              duration := dur;
              y_filt := yf;
              env_smooth := es;
              peaks := pk;
              grouped := group_beats Fs (map Z.of_nat pk);
              bpm := estimate_bpm
                       (length (group_beats Fs (map Z.of_nat pk))) dur;
              result_meta :=
                {| meta_Fs := Fs;
                   meta_duration_sec := round_decimals dur 2;
                   meta_threshold := th;
                   meta_raw_peaks := length pk;
                   meta_beats_grouped :=
                     length (group_beats Fs (map Z.of_nat pk));
                   meta_bpm :=
                     round_decimals
                       (estimate_bpm
                          (length (group_beats Fs (map Z.of_nat pk))) dur)
                       1 |} |}.
Proof.
  unfold process_heartbeat.
  destruct (normalize (to_mono inp)) as [y|] eqn:E1;
    [cbn [bind] | discriminate].
  destruct (duration_of (length y) Fs) as [dur|] eqn:E2;
    [cbn [bind] | discriminate].
  destruct (bandpass Fs y) as [yf|] eqn:E3; [cbn [bind] | discriminate].
  destruct (smooth_envelope Fs (hilbert_abs yf)) as [es|] eqn:E4;
    [cbn [bind] | discriminate].
  destruct (detect_peaks Fs es) as [[th pk]|] eqn:E5;
    [cbn [bind] | discriminate].
  destruct (plot_tracks (length y) [y; yf; es]) as [[]|] eqn:E6;
    [cbn [bind] | discriminate].
  intros [= <-]. exists y, dur, yf, es, th, pk. repeat split; assumption.
Qed.

Lemma duration_of_pos (n : nat) (Fs : Z) (dur : Q) :
  duration_of n Fs = Ok dur -> (1 <= n)%nat -> (0 < Fs)%Z ->
  dur = inject_Z (Z.of_nat n) / inject_Z Fs /\ 0 < dur.
Proof.
  unfold duration_of. intros H Hn HFs.
  destruct (Fs =? 0)%Z; [discriminate |]. injection H as <-.
  split; [reflexivity |].
  apply Qlt_shift_div_l.
  - change 0 with (inject_Z 0). now rewrite <- Zlt_Qlt.
  - rewrite Qmult_0_l. change 0 with (inject_Z 0). rewrite <- Zlt_Qlt. lia.
Qed.

(** Rounding to one decimal: a multiple of one tenth at most one twentieth
    away, whichever way ties go. *)
Lemma round_decimals_1 (R : FloatRound) (HR : FloatRoundLaws R) (x : Q) :
  (exists k : Z, round_decimals x 1 == inject_Z k / 10)
  /\ Qabs (round_decimals x 1 - x) <= 1 # 20.
Proof.
  split.
  - destruct (round_decimals_grid x 1) as [k Hk].
    change (inject_Z (10 ^ Z.of_nat 1)) with 10 in Hk.
    now exists k.
  - pose proof (round_decimals_near x 1) as H.
    change (inject_Z (10 ^ Z.of_nat 1)) with 10 in H.
    eapply Qle_trans; [exact H |].
    unfold Qle. simpl. lia.
Qed.

(** C1.  On a waveform of [n >= 1] samples at a rate [Fs > 0] that the
    pipeline analyses, the duration is [n / Fs] and is positive, the rate
    before rounding is the grouped beat count divided by [duration / 60],
    the rate estimator gives 0 for a duration of 0, and the [bpm] field of
    the metadata is the result of [round(bpm, 1)] on that rate: with a
    rounding that obeys [FloatRoundLaws], whichever way it resolves ties,
    a multiple of one tenth at most one twentieth away from the rate. *)
Theorem bpm_consistency (L : SignalLib) (R : FloatRound)
        (HR : FloatRoundLaws R) (inp : audio) (Fs : Z) (r : analysis) :
  process_heartbeat inp Fs = Ok r ->
  (1 <= length (to_mono inp))%nat -> (0 < Fs)%Z ->
  duration r = inject_Z (Z.of_nat (length (to_mono inp))) / inject_Z Fs
  /\ 0 < duration r
  /\ bpm r = inject_Z (Z.of_nat (length (grouped r))) / (duration r / 60)
  /\ bpm r = estimate_bpm (length (grouped r)) (duration r)
  /\ (forall count, estimate_bpm count 0 = 0)
  /\ meta_beats_grouped (result_meta r) = length (grouped r)
  /\ meta_bpm (result_meta r) = round_decimals (bpm r) 1
  /\ (exists k : Z, meta_bpm (result_meta r) == inject_Z k / 10)
  /\ Qabs (meta_bpm (result_meta r) - bpm r) <= 1 # 20.
Proof.
  intros Hrun Hn HFs.
  apply process_heartbeat_inv in Hrun
    as (y & dur & yf & es & th & pk & Hy & Hdur & _ & _ & _ & _ & ->).
  cbn [duration bpm grouped result_meta meta_beats_grouped meta_bpm].
  apply normalize_length in Hy. rewrite Hy in Hdur.
  destruct (duration_of_pos _ _ _ Hdur Hn HFs) as [-> Hpos].
  set (dur := inject_Z (Z.of_nat (length (to_mono inp))) / inject_Z Fs) in *.
  split; [reflexivity |]. split; [exact Hpos |].
  split; [now apply estimate_bpm_pos |].
  split; [reflexivity |].
  split; [intros count; apply estimate_bpm_no_duration, Qle_refl |].
  split; [reflexivity |]. split; [reflexivity |].
  apply (round_decimals_1 R HR).
Qed.

(** The counts of a run: no more grouped beats than raw peaks. *)
Lemma process_heartbeat_counts (L : SignalLib) (R : FloatRound)
      (inp : audio) (Fs : Z) (r : analysis) :
  process_heartbeat inp Fs = Ok r ->
  (meta_beats_grouped (result_meta r) <= meta_raw_peaks (result_meta r))%nat
  /\ Subseq (grouped r) (map Z.of_nat (peaks r)).
Proof.
  intros Hrun.
  apply process_heartbeat_inv in Hrun
    as (y & dur & yf & es & th & pk & _ & _ & _ & _ & _ & _ & ->).
  cbn [result_meta meta_beats_grouped meta_raw_peaks grouped peaks].
  split; [|apply group_beats_Subseq].
  pose proof (group_beats_length_le Fs (map Z.of_nat pk)) as H.
  now rewrite length_map in H.
Qed.

Lemma plot_tracks_lengths (n : nat) (tracks : list (list Q)) :
  plot_tracks n tracks = Ok tt -> Forall (fun tr => length tr = n) tracks.
Proof.
  unfold plot_tracks.
  destruct (forallb _ tracks) eqn:E; [intros _ | discriminate].
  rewrite forallb_forall in E. apply Forall_forall. intros tr Htr.
  now apply Nat.eqb_eq, E.
Qed.

(** A run that returns has tracks of the length of the waveform, and the
    waveform is at least as long as the smoothing window. *)
Lemma process_heartbeat_lengths (L : SignalLib) (R : FloatRound)
      (HL : SignalLibLaws L) (inp : audio) (Fs : Z) (r : analysis) :
  process_heartbeat inp Fs = Ok r ->
  length (y_filt r) = length (to_mono inp)
  /\ length (env_smooth r) = length (to_mono inp)
  /\ (Z.to_nat (window_len Fs) <= length (to_mono inp))%nat.
Proof.
  intros Hrun.
  apply process_heartbeat_inv in Hrun
    as (y & dur & yf & es & th & pk & Hy & _ & Hbp & Hes & _ & Hplot & ->).
  cbn [y_filt env_smooth].
  apply normalize_length in Hy. apply bandpass_length in Hbp.
  apply smooth_envelope_length in Hes. rewrite hilbert_abs_length in Hes.
  apply plot_tracks_lengths in Hplot.
  inversion Hplot as [|? ? _ Hrest]; subst.
  inversion Hrest as [|? ? _ Hrest']; subst.
  inversion Hrest' as [|? ? Hlen _]; subst.
  lia.
Qed.

(** A waveform shorter than the smoothing window yields no result: the
    smoothed envelope is longer than the time axis it is plotted on. *)
Lemma process_heartbeat_short_input (L : SignalLib) (R : FloatRound)
      (HL : SignalLibLaws L) (inp : audio) (Fs : Z) :
  (length (to_mono inp) < Z.to_nat (window_len Fs))%nat ->
  forall r, process_heartbeat inp Fs <> Ok r.
Proof.
  intros Hshort r Hrun.
  apply (process_heartbeat_lengths L R HL) in Hrun. lia.
Qed.

End PipelineFacts.

(* ------------------------------------------------------------------ *)
(** ** Runs of the pipeline on the reference instance *)

Module Runs.
Import Num Pipeline Reference ReferenceFacts PipelineFacts.
Local Open Scope Q_scope.

Lemma bpm_consistency_witness :
  exists r,
    process_heartbeat (L := ref_lib) (R := ref_round)
      (Mono one_click) 401 = Ok r
    /\ (1 <= length (to_mono (Mono one_click)))%nat /\ (0 < 401)%Z
    /\ duration r
       = inject_Z (Z.of_nat (length (to_mono (Mono one_click))))
         / inject_Z 401
    /\ 0 < duration r
    /\ bpm r = inject_Z (Z.of_nat (length (grouped r))) / (duration r / 60)
    /\ bpm r = Beats.estimate_bpm (length (grouped r)) (duration r)
    /\ (forall count, Beats.estimate_bpm count 0 = 0)
    /\ meta_beats_grouped (result_meta r) = length (grouped r)
    /\ meta_bpm (result_meta r) = round_decimals (bpm r) 1
    /\ (exists k : Z, meta_bpm (result_meta r) == inject_Z k / 10)
    /\ Qabs (meta_bpm (result_meta r) - bpm r) <= 1 # 20.
Proof.
  assert (H : exists r,
             process_heartbeat (L := ref_lib) (R := ref_round)
               (Mono one_click) 401 = Ok r)
    by (vm_compute; eexists; reflexivity).
  destruct H as [r H]. exists r.
  assert (Hn : (1 <= length (to_mono (Mono one_click)))%nat)
    by (vm_compute; lia).
  assert (HFs : (0 < 401)%Z) by lia.
  split; [exact H |]. split; [exact Hn |]. split; [exact HFs |].
  exact (bpm_consistency ref_lib ref_round ref_round_laws
           (Mono one_click) 401 r H Hn HFs).
Defined.

(** The run on the click: one raw peak, one beat, 802 beats per minute
    for 30 samples at 401 Hz. *)
Lemma one_click_run :
  exists r,
    process_heartbeat (L := ref_lib) (R := ref_round)
      (Mono one_click) 401 = Ok r
    /\ peaks r = [10%nat] /\ grouped r = [10%Z]
    /\ meta_bpm (result_meta r) == 802.
Proof.
  eexists. split; [vm_compute; reflexivity |].
  repeat split.
Qed.

(** Ten samples at 1000 Hz: the band-pass stage returns ten samples
    through the fallback, and the pipeline raises. *)
Lemma ten_samples_run :
  (exists yf, bandpass (L := ref_lib) 1000 ten_samples = Ok yf
              /\ length yf = 10%nat)
  /\ process_heartbeat (L := ref_lib) (R := ref_round) (Mono ten_samples) 1000
     = Raise ValueError.
Proof.
  split; [eexists; split; vm_compute; reflexivity |].
  vm_compute. reflexivity.
Qed.

End Runs.

(* ------------------------------------------------------------------ *)
(** ** Binary64 agrees with the rational model on the sample rates *)

Module Binary64Facts.
Import Binary64.
Local Open Scope Z_scope.

Lemma option_Z_eqb_eq (a b : option Z) : option_Z_eqb a b = true -> a = b.
Proof.
  destruct a, b; simpl; try discriminate; [|reflexivity].
  intros H. apply Z.eqb_eq in H. now subst.
Qed.

Lemma agrees_on_sample_rates : forallb agrees sample_rates = true.
Proof. vm_compute. reflexivity. Qed.

Lemma In_range_from (n : nat) : forall lo x,
  lo <= x < lo + Z.of_nat n -> In x (range_from lo n).
Proof.
  induction n as [|n IH]; intros lo x Hx; [lia |].
  cbn [range_from]. destruct (Z.eq_dec lo x) as [-> | Hne]; [now left |].
  right. apply IH. lia.
Qed.

Lemma In_sample_rates (Fs : Z) : 1 <= Fs <= 5000 -> In Fs sample_rates.
Proof.
  intros HFs. unfold sample_rates. apply in_or_app. left.
  apply In_range_from. rewrite Z2Nat.id; lia.
Qed.

(** X22.  On every sample rate of the list, the window length, the
    minimum peak distance and the grouping test around its threshold,
    computed in binary64 as the program does, are those of the rational
    model. *)
Lemma binary64_matches_model (Fs : Z) :
  In Fs sample_rates ->
  window_len Fs = Some (Envelope.window_len Fs)
  /\ min_distance Fs = Some (Peaks.min_distance Fs)
  /\ forall gap, 3 * Fs / 5 - 1 <= gap <= 3 * Fs / 5 + 1 ->
       far_apart Fs gap
       = Num.Qlt_bool (0.6 * inject_Z Fs)%Q (inject_Z gap).
Proof.
  intros Hin.
  pose proof agrees_on_sample_rates as H.
  rewrite forallb_forall in H. specialize (H Fs Hin).
  unfold agrees in H. cbv zeta in H.
  repeat (apply andb_prop in H as [H ?]).
  split; [now apply option_Z_eqb_eq |].
  split; [now apply option_Z_eqb_eq |].
  intros gap Hgap.
  assert (Hc : gap = 3 * Fs / 5 - 1 \/ gap = 3 * Fs / 5
               \/ gap = 3 * Fs / 5 + 1) by lia.
  destruct Hc as [-> | [-> | ->]]; now apply Bool.eqb_prop.
Qed.

End Binary64Facts.

(* ------------------------------------------------------------------ *)
(** ** Further properties of the stages *)

Module StageFacts.
Import Num NumFacts Normalizer Filter Envelope Peaks Beats Pipeline.
Import NormalizerFacts EnvelopeFacts FilterFacts SeqFacts BeatsFacts.
Import PeaksFacts.
Local Open Scope Q_scope.

(** *** Normalizer *)

(** After the guard against a silent waveform the peak is positive: the
    division that follows never divides by zero. *)
Lemma avoid_all_zero_peak (y y1 : list Q) :
  avoid_all_zero y = Ok y1 ->
  length y1 = length y /\ exists p1, peak_abs y1 = Ok p1 /\ 0 < p1.
Proof.
  unfold avoid_all_zero.
  destruct (peak_abs y) as [p|] eqn:Hp; [cbn [bind] | discriminate].
  intros [= <-].
  destruct (peak_abs_spec _ _ Hp) as (Hp0 & (s0 & Hs0 & Ep) & Hub).
  destruct (Qeq_bool p 0) eqn:E.
  - apply Qeq_bool_iff in E.
    split; [apply length_map |].
    destruct (np_max_ok (map Qabs (map (fun s => s + tiny) y))) as [p1 Hp1].
    { destruct y; [destruct Hs0 | discriminate]. }
    exists p1. split; [exact Hp1 |].
    destruct (peak_abs_spec _ _ Hp1) as (_ & (s1 & Hs1 & Ep1) & _).
    apply in_map_iff in Hs1 as (s & <- & Hs).
    assert (Hs_zero : s == 0).
    { pose proof (Hub s Hs) as Hle. rewrite E in Hle.
      pose proof (Qabs_nonneg s) as Hge.
      assert (Ha : Qabs s == 0) by now apply Qle_antisym.
      apply Qabs_Qle_condition in Hle. lra. }
    rewrite Ep1, Hs_zero. reflexivity.
  - split; [reflexivity |]. exists p. split; [exact Hp |].
    apply Qeq_bool_neq in E.
    destruct (Qlt_le_dec 0 p) as [|Hle]; [assumption |].
    exfalso. apply E. now apply Qle_antisym.
Qed.

Lemma normalize_nonempty_ok (y : list Q) :
  y <> [] -> exists out, normalize y = Ok out.
Proof.
  intros Hne.
  destruct (np_max_ok (map Qabs y)) as [p Hp].
  { destruct y; [congruence | discriminate]. }
  fold (peak_abs y) in Hp.
  destruct (avoid_all_zero y) as [y1|] eqn:Hy1.
  2:{ unfold avoid_all_zero in Hy1. rewrite Hp in Hy1. discriminate. }
  destruct (avoid_all_zero_peak _ _ Hy1) as (_ & p1 & Hp1 & _).
  exists (map (fun s => s / p1) y1).
  unfold normalize. rewrite Hy1. cbn [bind].
  unfold divide_by_peak. now rewrite Hp1.
Qed.

(** X1.  The normalizer raises exactly on the empty waveform.  On any other
    waveform, silent or not, it returns a waveform of the same length whose
    samples all lie in [[-1, 1]] and one of which has absolute value 1. *)
Theorem normalize_range (y : list Q) :
  (normalize y = Raise ValueError <-> y = [])
  /\ (forall e, normalize y = Raise e -> e = ValueError)
  /\ (forall out, normalize y = Ok out ->
        length out = length y
        /\ Forall (fun s => Qabs s <= 1) out
        /\ exists s, In s out /\ Qabs s == 1).
Proof.
  destruct y as [|s0 y'] eqn:Ey.
  - split; [split; reflexivity |]. split; [intros e [= <-]; reflexivity |].
    intros out H. discriminate H.
  - rewrite <- Ey.
    assert (Hne : y <> []) by (rewrite Ey; discriminate).
    destruct (np_max_ok (map Qabs y)) as [p Hp].
    { rewrite Ey. discriminate. }
    fold (peak_abs y) in Hp.
    destruct (avoid_all_zero y) as [y1|] eqn:Hy1.
    2:{ unfold avoid_all_zero in Hy1. rewrite Hp in Hy1. discriminate. }
    destruct (avoid_all_zero_peak _ _ Hy1) as (Hlen & p1 & Hp1 & Hpos).
    assert (Hrun : normalize y = Ok (map (fun s => s / p1) y1)).
    { unfold normalize. rewrite Hy1. cbn [bind].
      unfold divide_by_peak. now rewrite Hp1. }
    rewrite Hrun.
    split; [split; [discriminate | intros ->; congruence] |].
    split; [discriminate |].
    intros out [= <-].
    destruct (peak_abs_spec _ _ Hp1) as (_ & (s1 & Hs1 & Ep1) & Hub).
    split; [now rewrite length_map |]. split.
    + apply Forall_forall. intros z Hz.
      apply in_map_iff in Hz as (s & <- & Hs).
      rewrite Qabs_div_pos by exact Hpos.
      apply Qle_shift_div_r; [exact Hpos |].
      rewrite Qmult_1_l. now apply Hub.
    + exists (s1 / p1). split; [now apply (in_map (fun s => s / p1)) |].
      rewrite Qabs_div_pos by exact Hpos. rewrite <- Ep1.
      apply Qmult_inv_r. intros H0. rewrite H0 in Hpos.
      exact (Qlt_irrefl _ Hpos).
Qed.

(** *** Forward filter *)

Lemma run_filter_app (b0 : Q) (bt at_ x1 x2 : list Q) : forall z,
  exists z', run_filter b0 bt at_ z (x1 ++ x2)
             = run_filter b0 bt at_ z x1 ++ run_filter b0 bt at_ z' x2.
Proof.
  induction x1 as [|x x1 IH]; intros z; simpl.
  - now exists z.
  - destruct (IH (next_state bt at_ (tl z) x (hd 0 z + b0 * x))) as [z' Hz'].
    exists z'. now rewrite Hz'.
Qed.

(** X3.  The forward filter is causal: filtering a waveform followed by
    more samples gives the filtered waveform followed by as many more
    values; the first outputs do not depend on later samples.  The
    waveform is not empty, or the denominator has two coefficients or
    more: with a single one and no sample [lfilter] raises. *)
Theorem lfilter_causal (b a x1 x2 r : list Q) :
  lfilter b a (x1 ++ x2) = Ok r ->
  x1 <> [] \/ (2 <= length a)%nat ->
  exists r1 r2, lfilter b a x1 = Ok r1
                /\ r = r1 ++ r2
                /\ length r1 = length x1 /\ length r2 = length x2.
Proof.
  unfold lfilter.
  destruct a as [|a0 a']; [discriminate |].
  destruct b as [|b0 b']; [discriminate |].
  destruct (Qeq_bool a0 0); [discriminate |].
  destruct ((length (a0 :: a') =? 1)%nat
            && (length (x1 ++ x2) =? 0)%nat); [discriminate |].
  intros [= <-] Hx1.
  assert (E : (length (a0 :: a') =? 1)%nat && (length x1 =? 0)%nat = false).
  { destruct Hx1 as [Hx1 | Ha].
    - destruct x1; [congruence |]. apply andb_false_r.
    - apply andb_false_intro1, Nat.eqb_neq. lia. }
  rewrite E.
  match goal with
  | |- context [run_filter ?c0 ?ct ?dt ?z0 (x1 ++ x2)] =>
      destruct (run_filter_app c0 ct dt x1 x2 z0) as [z' Hz'];
      exists (run_filter c0 ct dt z0 x1), (run_filter c0 ct dt z' x2)
  end.
  split; [reflexivity |]. split; [exact Hz' |].
  split; apply run_filter_length.
Qed.

Lemma lfilter_causal_witness :
  lfilter [1; 0; -2; 0; 1] [1; 0; 0; 0; 0] ([1; 0; 0] ++ [0; 1])
  = Ok [1; 0; -2; 0; 2]
  /\ ([1; 0; 0] <> [] \/ (2 <= length [1; 0; 0; 0; 0])%nat)
  /\ exists r1 r2, lfilter [1; 0; -2; 0; 1] [1; 0; 0; 0; 0] [1; 0; 0] = Ok r1
       /\ [1; 0; -2; 0; 2] = r1 ++ r2
       /\ length r1 = length [1; 0; 0] /\ length r2 = length [0; 1].
Proof.
  assert (H : lfilter [1; 0; -2; 0; 1] [1; 0; 0; 0; 0] ([1; 0; 0] ++ [0; 1])
              = Ok [1; 0; -2; 0; 2]) by (vm_compute; reflexivity).
  assert (Hx : [1; 0; 0] <> [] \/ (2 <= length [1; 0; 0; 0; 0])%nat)
    by (left; discriminate).
  split; [exact H |]. split; [exact Hx |].
  exact (lfilter_causal _ _ _ _ _ H Hx).
Defined.

(** *** Beat detector *)

Lemma plateau_end_le (x : list Q) (xi : Q) (i_max fuel : nat) : forall start,
  (start <= i_max)%nat -> (plateau_end fuel x xi start i_max <= i_max)%nat.
Proof.
  induction fuel as [|fuel IH]; intros start Hs; simpl; [exact Hs |].
  destruct (Nat.ltb_spec start i_max) as [Hlt | Hge]; cbn [andb];
    [|exact Hs].
  destruct (Qeq_bool (nth start x 0) xi); [apply IH; lia | exact Hs].
Qed.

(** Every sample the plateau walk steps over equals the plateau value. *)
Lemma plateau_end_plateau (x : list Q) (xi : Q) (i_max fuel : nat) :
  forall start k,
  (start <= k < plateau_end fuel x xi start i_max)%nat ->
  nth k x 0 == xi.
Proof.
  induction fuel as [|fuel IH]; intros start k Hk; simpl in Hk; [lia |].
  destruct ((start <? i_max)%nat && Qeq_bool (nth start x 0) xi) eqn:E;
    [|lia].
  apply andb_prop in E as [_ E]. apply Qeq_bool_iff in E.
  destruct (Nat.eq_dec k start) as [-> | Hne]; [exact E |].
  apply (IH (S start) k). lia.
Qed.

(** What the scan reports from index [i >= 1] on lies before [i_max] and
    is not below its two neighbours. *)
Lemma local_maxima_from_peak (x : list Q) (i_max fuel : nat) : forall i p,
  (1 <= i)%nat ->
  In p (local_maxima_from fuel x i i_max) ->
  (i <= p < i_max)%nat
  /\ nth (p - 1) x 0 <= nth p x 0 /\ nth (p + 1) x 0 <= nth p x 0.
Proof.
  induction fuel as [|fuel IH]; intros i p Hi Hp; cbn [local_maxima_from] in Hp;
    [destruct Hp |].
  destruct (Nat.ltb_spec i i_max) as [Hlt | Hge]; [|destruct Hp].
  assert (Hskip : In p (local_maxima_from fuel x (S i) i_max) ->
                  (i <= p < i_max)%nat
                  /\ nth (p - 1) x 0 <= nth p x 0
                  /\ nth (p + 1) x 0 <= nth p x 0).
  { intros H. apply IH in H; [|lia]. destruct H as (? & ? & ?).
    repeat split; try assumption; lia. }
  destruct (Qlt_bool (nth (i - 1) x 0) (nth i x 0)) eqn:Eleft;
    [|now apply Hskip].
  pose proof (plateau_end_ge x (nth i x 0) i_max (length x) (S i)) as Hge.
  pose proof (plateau_end_le x (nth i x 0) i_max (length x) (S i) Hlt) as Hle.
  pose proof (plateau_end_plateau x (nth i x 0) i_max (length x) (S i))
    as Hflat.
  set (ia := plateau_end (length x) x (nth i x 0) (S i) i_max) in *.
  clearbody ia.
  destruct (Qlt_bool (nth ia x 0) (nth i x 0)) eqn:Eright;
    [|now apply Hskip].
  apply Qlt_bool_iff in Eleft, Eright.
  assert (Hmid : (i <= (i + (ia - 1)) / 2 <= ia - 1)%nat).
  { split.
    - apply Nat.div_le_lower_bound; lia.
    - apply Nat.Div0.div_le_upper_bound. lia. }
  destruct Hp as [<- | Hp].
  - set (m := ((i + (ia - 1)) / 2)%nat) in *. clearbody m.
    assert (Hin : forall k, (i <= k <= ia - 1)%nat -> nth k x 0 == nth i x 0).
    { intros k Hk. destruct (Nat.eq_dec k i) as [-> | Hne]; [reflexivity |].
      apply Hflat. lia. }
    split; [lia |]. rewrite (Hin m) by lia. split.
    + destruct (Nat.eq_dec m i) as [-> | Hne].
      * now apply Qlt_le_weak.
      * rewrite (Hin (m - 1)%nat) by lia. apply Qle_refl.
    + destruct (Nat.eq_dec (m + 1) ia) as [-> | Hne].
      * now apply Qlt_le_weak.
      * rewrite (Hin (m + 1)%nat) by lia. apply Qle_refl.
  - apply IH in Hp; [|lia]. destruct Hp as (? & ? & ?).
    repeat split; try assumption; lia.
Qed.

(** X4.  Every index that [find_peaks] returns is an interior sample of the
    envelope, never the first or the last one, and the envelope there is
    not below either neighbour. *)
Theorem find_peaks_interior (x : list Q) (h : Q) (d : Z) (out : list nat) :
  find_peaks x h d = Ok out ->
  Forall (fun p => (1 <= p < length x - 1)%nat
                   /\ nth (p - 1) x 0 <= nth p x 0
                   /\ nth (p + 1) x 0 <= nth p x 0) out.
Proof.
  unfold find_peaks. destruct (d <? 1)%Z; [discriminate |].
  intros [= <-]. apply Forall_forall. intros p Hp.
  apply (Subseq_In _ _ (mask_Subseq _ _)) in Hp.
  apply (Subseq_In _ _ (select_by_height_Subseq _ _ _)) in Hp.
  unfold local_maxima in Hp.
  now apply local_maxima_from_peak in Hp.
Qed.

Lemma find_peaks_interior_witness :
  find_peaks [0; 1; 0; 2; 2; 0] 0.5 1 = Ok [1; 3]%nat
  /\ Forall (fun p => (1 <= p < length [0; 1; 0; 2; 2; 0] - 1)%nat
                      /\ nth (p - 1) [0; 1; 0; 2; 2; 0] 0
                         <= nth p [0; 1; 0; 2; 2; 0] 0
                      /\ nth (p + 1) [0; 1; 0; 2; 2; 0] 0
                         <= nth p [0; 1; 0; 2; 2; 0] 0) [1; 3]%nat.
Proof.
  assert (H : find_peaks [0; 1; 0; 2; 2; 0] 0.5 1 = Ok [1; 3]%nat)
    by (vm_compute; reflexivity).
  split; [exact H |].
  exact (find_peaks_interior _ _ _ _ H).
Defined.

Lemma local_maxima_from_flat (x : list Q) (c : Q) (i_max fuel : nat) :
  Forall (fun s => s == c) x -> (i_max <= length x - 1)%nat ->
  forall i, (1 <= i)%nat -> local_maxima_from fuel x i i_max = [].
Proof.
  intros Hflat Hmax. rewrite Forall_nth in Hflat.
  induction fuel as [|fuel IH]; intros i Hi; cbn [local_maxima_from];
    [reflexivity |].
  destruct (Nat.ltb_spec i i_max) as [Hlt | Hge]; [|reflexivity].
  assert (E : Qlt_bool (nth (i - 1) x 0) (nth i x 0) = false).
  { apply Qlt_bool_false.
    rewrite (Hflat (i - 1)%nat 0), (Hflat i 0) by lia. apply Qle_refl. }
  rewrite E. apply IH. lia.
Qed.

(** X5.  The peak finder returns no index on an array whose samples are
    all equal, whatever the height and the distance: a peak has to rise
    above its left neighbour.  This is about the array the peak finder is
    given, the smoothed envelope, and not about the waveform: the envelope
    of a constant or silent waveform is not constant, the averaging window
    reaching over the two ends of the array. *)
Theorem find_peaks_flat (x : list Q) (c h : Q) (d : Z) :
  Forall (fun s => s == c) x -> (1 <= d)%Z ->
  find_peaks x h d = Ok [].
Proof.
  intros Hflat Hd. unfold find_peaks.
  destruct (Z.ltb_spec d 1) as [Hlt | _]; [lia |].
  unfold local_maxima.
  rewrite (local_maxima_from_flat x c _ _ Hflat) by lia.
  reflexivity.
Qed.

Lemma find_peaks_flat_witness :
  Forall (fun s => s == 0.25) [0.25; 0.25; 0.25; 0.25] /\ (1 <= 80)%Z
  /\ find_peaks [0.25; 0.25; 0.25; 0.25] 0.075 80 = Ok [].
Proof.
  assert (Hf : Forall (fun s => s == 0.25) [0.25; 0.25; 0.25; 0.25])
    by (repeat constructor).
  assert (Hd : (1 <= 80)%Z) by lia.
  split; [exact Hf |]. split; [exact Hd |].
  exact (find_peaks_flat _ 0.25 0.075 80 Hf Hd).
Defined.

(** X6.  The detector raises exactly on an empty envelope or a sample rate
    below 5 Hz, where the minimum distance [int(0.2 * Fs)] is below 1; the
    exception is [ValueError]. *)
Theorem detect_peaks_raises_iff (Fs : Z) (env : list Q) :
  (detect_peaks Fs env = Raise ValueError <-> env = [] \/ (Fs < 5)%Z)
  /\ (forall e, detect_peaks Fs env = Raise e -> e = ValueError).
Proof.
  unfold detect_peaks.
  destruct env as [|e0 env']; cbn [np_max bind].
  - split; [|intros e [= <-]; reflexivity].
    split; [intros _; now left | reflexivity].
  - unfold find_peaks. rewrite min_distance_quot.
    destruct (Z.ltb_spec (Z.quot (2 * Fs) 10) 1) as [Hlt | Hge]; cbn [bind].
    + split; [|intros e [= <-]; reflexivity].
      split; [intros _; right | reflexivity].
      revert Hlt. Z.to_euclidean_division_equations. lia.
    + split; [|discriminate].
      split; [discriminate |].
      intros [H | H]; [discriminate |]. exfalso.
      revert Hge. Z.to_euclidean_division_equations. lia.
Qed.

(** *** Beat grouper *)

Lemma Sorted_snoc_inv {A : Type} (R : A -> A -> Prop) (d p : A) (g : list A) :
  Sorted R (g ++ [p]) -> Sorted R g /\ (g = [] \/ R (last g d) p).
Proof.
  induction g as [|a g IH]; intros H; simpl in H.
  - split; [constructor | now left].
  - apply Sorted_inv in H as [Hg Ha].
    destruct (IH Hg) as [Hg' Hlast].
    destruct g as [|b g].
    + split; [repeat constructor |]. right. simpl in *.
      now apply HdRel_inv in Ha.
    + split.
      * constructor; [exact Hg' |]. simpl in Ha. apply HdRel_inv in Ha.
        now constructor.
      * right. destruct Hlast as [Hnil | Hlast]; [discriminate |].
        exact Hlast.
Qed.

Lemma group_beats_fixed (Fs : Z) (g : list Z) :
  Sorted (far_apart Fs) g -> group_beats Fs g = g.
Proof.
  induction g as [|p g IH] using rev_ind; intros Hg; [reflexivity |].
  apply (Sorted_snoc_inv _ 0%Z) in Hg as [Hg Hlast].
  rewrite group_beats_snoc, (IH Hg).
  destruct (group_step_cases Fs g p) as [[E _] | [_ [Hne Hc]]];
    [exact E |].
  destruct Hlast as [-> | Hlast]; [congruence | contradiction].
Qed.

(** X7.  Grouping is idempotent: grouping the grouped beats again drops
    nothing more. *)
Theorem group_beats_idempotent (Fs : Z) (l : list Z) :
  group_beats Fs (group_beats Fs l) = group_beats Fs l.
Proof. apply group_beats_fixed, group_beats_spaced. Qed.

(** *** Envelope smoothing *)

Lemma Qsum_nonneg (l : list Q) : Forall (fun s => 0 <= s) l -> 0 <= Qsum l.
Proof.
  unfold Qsum. intros H.
  assert (G : forall acc, 0 <= acc -> 0 <= fold_left Qplus l acc).
  { induction H as [|s l Hs _ IH]; intros acc Hacc; simpl; [exact Hacc |].
    apply IH. lra. }
  apply G, Qle_refl.
Qed.

Lemma nth_nonneg (l : list Q) (k : nat) :
  Forall (fun s => 0 <= s) l -> 0 <= nth k l 0.
Proof.
  intros H. destruct (Nat.lt_ge_cases k (length l)) as [Hlt | Hge].
  - rewrite Forall_nth in H. now apply H.
  - rewrite nth_overflow by exact Hge. apply Qle_refl.
Qed.

Lemma conv_at_nonneg (a v : list Q) (k : nat) :
  Forall (fun s => 0 <= s) a -> Forall (fun s => 0 <= s) v ->
  0 <= conv_at a v k.
Proof.
  intros Ha Hv. unfold conv_at. apply Qsum_nonneg.
  apply Forall_forall. intros t Ht.
  apply in_map_iff in Ht as (j & <- & _).
  apply Qmult_le_0_compat; now apply nth_nonneg.
Qed.

Lemma box_kernel_nonneg (w : Z) : Forall (fun s => 0 <= s) (box_kernel w).
Proof.
  unfold box_kernel. apply Forall_forall. intros t Ht.
  apply in_map_iff in Ht as (one & <- & Hone).
  destruct (Z_lt_le_dec w 0) as [Hneg | Hpos].
  - destruct w; try lia. destruct Hone.
  - apply repeat_spec in Hone. subst one.
    unfold Qdiv. rewrite Qmult_1_l. apply Qinv_le_0_compat.
    change 0 with (inject_Z 0). now rewrite <- Zle_Qle.
Qed.

(** X8.  Smoothing keeps an envelope non-negative: when no sample of the
    envelope is negative, no sample of the smoothed envelope is. *)
Theorem smooth_envelope_nonneg (Fs : Z) (env es : list Q) :
  Forall (fun s => 0 <= s) env ->
  smooth_envelope Fs env = Ok es ->
  Forall (fun s => 0 <= s) es.
Proof.
  intros Henv. unfold smooth_envelope, convolve_same.
  pose proof (box_kernel_nonneg (window_len Fs)) as Hker.
  destruct env as [|e0 env']; [discriminate |].
  destruct (box_kernel (window_len Fs)) as [|k0 ker']; [discriminate |].
  destruct (length (e0 :: env') <? length (k0 :: ker'))%nat;
    cbv iota beta; intros [= <-]; apply Forall_forall; intros t Ht;
    destruct Ht as [<- | Ht]; try now apply conv_at_nonneg.
  all: apply in_map_iff in Ht as (i & <- & _); now apply conv_at_nonneg.
Qed.

Lemma smooth_envelope_nonneg_witness :
  Forall (fun s => 0 <= s) (repeat 1 10)
  /\ (exists es, smooth_envelope 100 (repeat 1 10) = Ok es
                 /\ Forall (fun s => 0 <= s) es).
Proof.
  assert (Henv : Forall (fun s => 0 <= s) (repeat 1 10))
    by (repeat constructor; discriminate).
  split; [exact Henv |].
  destruct (smooth_envelope_ok 100 (repeat 1 10)) as [es Hes];
    [discriminate |].
  exists es. split; [exact Hes |].
  exact (smooth_envelope_nonneg 100 _ es Henv Hes).
Defined.

End StageFacts.

(* ------------------------------------------------------------------ *)
(** ** Further properties of a run of the pipeline *)

Module RunFacts.
Import Num NumFacts Normalizer Filter Envelope Peaks Beats Pipeline.
Import NormalizerFacts EnvelopeFacts FilterFacts SeqFacts BeatsFacts.
Import PeaksFacts PipelineFacts Reference ReferenceFacts StageFacts.
Local Open Scope Q_scope.

(** X9.  An empty waveform makes the pipeline raise [ValueError], and a
    sample rate of zero on a non-empty waveform makes it raise
    [ZeroDivisionError]; neither reaches the filter. *)
Theorem process_heartbeat_rejects (L : SignalLib) (R : FloatRound)
        (inp : audio) (Fs : Z) :
  (to_mono inp = [] -> process_heartbeat inp Fs = Raise ValueError)
  /\ (to_mono inp <> [] -> Fs = 0%Z ->
      process_heartbeat inp Fs = Raise ZeroDivisionError).
Proof.
  unfold process_heartbeat. split.
  - intros ->. reflexivity.
  - intros Hne ->.
    destruct (normalize_nonempty_ok _ Hne) as [y Hy]. now rewrite Hy.
Qed.

Lemma detect_peaks_in_range (Fs : Z) (env : list Q) (th : Q)
      (pk : list nat) :
  detect_peaks Fs env = Ok (th, pk) ->
  (5 <= Fs)%Z /\ Forall (fun p => (1 <= p < length env - 1)%nat) pk.
Proof.
  unfold detect_peaks.
  destruct (np_max env) as [m|]; [cbn [bind] | discriminate].
  unfold find_peaks. rewrite min_distance_quot.
  destruct (Z.ltb_spec (Z.quot (2 * Fs) 10) 1) as [Hlt | Hge];
    [discriminate |].
  cbn [bind]. intros [= <- <-]. split.
  - revert Hge. Z.to_euclidean_division_equations. lia.
  - apply Forall_forall. intros p Hp.
    apply (Subseq_In _ _ (mask_Subseq _ _)) in Hp.
    apply (Subseq_In _ _ (select_by_height_Subseq _ _ _)) in Hp.
    unfold local_maxima in Hp.
    now apply local_maxima_from_peak in Hp.
Qed.

(** X10.  Whenever the pipeline returns, the normalized, filtered and
    smoothed tracks all have the length of the waveform, the waveform is
    at least as long as the smoothing window, the sample rate is at least
    5 Hz, every raw peak is an interior sample index, and the counts in
    the metadata are the lengths of the peak and beat sequences. *)
Theorem process_heartbeat_invariants (L : SignalLib) (R : FloatRound)
        (HL : SignalLibLaws L) (inp : audio) (Fs : Z) (r : analysis) :
  process_heartbeat inp Fs = Ok r ->
  let n := length (to_mono inp) in
  length (y_norm r) = n /\ length (y_filt r) = n
  /\ length (env_smooth r) = n
  /\ (Z.to_nat (window_len Fs) <= n)%nat
  /\ (5 <= Fs)%Z
  /\ Forall (fun p => (1 <= p < n - 1)%nat) (peaks r)
  /\ meta_raw_peaks (result_meta r) = length (peaks r)
  /\ meta_beats_grouped (result_meta r) = length (grouped r)
  /\ meta_Fs (result_meta r) = Fs.
Proof.
  intros Hrun n.
  destruct (process_heartbeat_lengths L R HL inp Fs r Hrun) as (Hf & He & Hw).
  apply process_heartbeat_inv in Hrun
    as (y & dur & yf & es & th & pk & Hy & _ & _ & _ & Hpk & _ & ->).
  cbn [y_norm y_filt env_smooth peaks grouped result_meta meta_raw_peaks
       meta_beats_grouped meta_Fs] in *.
  apply normalize_length in Hy.
  apply detect_peaks_in_range in Hpk as [HFs Hin].
  rewrite He in Hin. fold n in Hin.
  repeat split; assumption.
Qed.

Lemma process_heartbeat_invariants_witness :
  exists r,
    process_heartbeat (L := ref_lib) (R := ref_round)
      (Mono one_click) 401 = Ok r
    /\ let n := length (to_mono (Mono one_click)) in
       length (y_norm r) = n /\ length (y_filt r) = n
       /\ length (env_smooth r) = n
       /\ (Z.to_nat (window_len 401) <= n)%nat
       /\ (5 <= 401)%Z
       /\ Forall (fun p => (1 <= p < n - 1)%nat) (peaks r)
       /\ meta_raw_peaks (result_meta r) = length (peaks r)
       /\ meta_beats_grouped (result_meta r) = length (grouped r)
       /\ meta_Fs (result_meta r) = 401%Z.
Proof.
  assert (H : exists r,
             process_heartbeat (L := ref_lib) (R := ref_round)
               (Mono one_click) 401 = Ok r)
    by (vm_compute; eexists; reflexivity).
  destruct H as [r H]. exists r. split; [exact H |].
  exact (process_heartbeat_invariants ref_lib ref_round ref_lib_laws _ _ r H).
Defined.

(** Beats that are pairwise more than [0.6 * Fs] apart span at least
    [(count - 1) * 0.6 * Fs] samples. *)
Lemma spaced_span (Fs : Z) (g : list Z) :
  Sorted (far_apart Fs) g -> g <> [] ->
  inject_Z (Z.of_nat (length g) - 1) * (0.6 * inject_Z Fs)
  <= inject_Z (last g 0%Z - hd 0%Z g).
Proof.
  induction 1 as [|a g Hg IH Ha]; intros Hne; [congruence |].
  destruct g as [|b g'].
  - simpl. rewrite Z.sub_diag. change (inject_Z 0) with 0. lra.
  - specialize (IH ltac:(discriminate)).
    apply HdRel_inv in Ha. unfold far_apart in Ha.
    change (last (a :: b :: g') 0%Z) with (last (b :: g') 0%Z).
    change (hd 0%Z (a :: b :: g')) with a.
    change (hd 0%Z (b :: g')) with b in IH.
    replace (Z.of_nat (length (a :: b :: g')) - 1)%Z
      with ((Z.of_nat (length (b :: g')) - 1) + 1)%Z
      by (cbn [length]; lia).
    replace (last (b :: g') 0%Z - a)%Z
      with ((last (b :: g') 0%Z - b) + (b - a))%Z by lia.
    rewrite !inject_Z_plus. change (inject_Z 1) with 1.
    set (K := inject_Z (Z.of_nat (length (b :: g')) - 1)) in *.
    set (c := 0.6 * inject_Z Fs) in *.
    assert (E : (K + 1) * c == K * c + c) by ring.
    rewrite E. lra.
Qed.

Lemma Sorted_far_last_in (g : list Z) :
  g <> [] -> In (last g 0%Z) g /\ In (hd 0%Z g) g.
Proof.
  intros Hne. split.
  - destruct (exists_last Hne) as (g' & z & ->).
    rewrite last_last. apply in_or_app. right. now left.
  - destruct g; [congruence | now left].
Qed.

(** X11.  The rate a run reports is bounded by the grouping rule: beats are
    more than [0.6 * Fs] samples apart inside a waveform of [n] samples, so
    the rate before rounding is non-negative and below
    [100 + 60 * Fs / n] beats per minute, that is 100 plus 60 over the
    duration in seconds. *)
Theorem bpm_below_hundred_plus (L : SignalLib) (R : FloatRound)
        (HL : SignalLibLaws L) (inp : audio) (Fs : Z) (r : analysis) :
  process_heartbeat inp Fs = Ok r ->
  0 <= bpm r
  /\ bpm r < 100 + 60 * inject_Z Fs
                   / inject_Z (Z.of_nat (length (to_mono inp))).
Proof.
  intros Hrun.
  destruct (process_heartbeat_lengths L R HL inp Fs r Hrun) as (_ & He & _).
  apply process_heartbeat_inv in Hrun
    as (y & dur & yf & es & th & pk & Hy & Hdur & _ & _ & Hpk & _ & ->).
  cbn [bpm env_smooth] in *.
  assert (Hn : (1 <= length (to_mono inp))%nat).
  { destruct (to_mono inp); [vm_compute in Hy; discriminate | simpl; lia]. }
  apply normalize_length in Hy.
  apply detect_peaks_in_range in Hpk as [HFs Hin].
  rewrite He in Hin.
  set (n := length (to_mono inp)) in *.
  set (g := group_beats Fs (map Z.of_nat pk)).
  rewrite Hy in Hdur.
  destruct (duration_of_pos _ _ _ Hdur Hn ltac:(lia)) as [-> Hpos].
  set (N := inject_Z (Z.of_nat n)) in *.
  set (F := inject_Z Fs) in *.
  assert (HN : 0 < N).
  { subst N. change 0 with (inject_Z 0). rewrite <- Zlt_Qlt. lia. }
  assert (HF : 0 < F).
  { subst F. change 0 with (inject_Z 0). rewrite <- Zlt_Qlt. lia. }
  rewrite estimate_bpm_pos by exact Hpos.
  set (K := inject_Z (Z.of_nat (length g))).
  assert (HK : 0 <= K).
  { subst K. change 0 with (inject_Z 0). rewrite <- Zle_Qle. lia. }
  assert (Hrate : K / (N / F / 60) == 60 * K * F / N).
  { field. split; intros H0; rewrite H0 in *;
      [exact (Qlt_irrefl _ HN) | exact (Qlt_irrefl _ HF)]. }
  rewrite Hrate.
  assert (Hspan : (K - 1) * (0.6 * F) < N).
  { destruct g as [|g0 g'] eqn:Eg.
    - subst K. simpl. change (inject_Z 0) with 0.
      assert (0 < 0.6 * F) by lra. lra.
    - pose proof (group_beats_spaced Fs (map Z.of_nat pk)) as Hsp.
      fold g in Hsp. rewrite Eg in Hsp.
      pose proof (spaced_span Fs _ Hsp ltac:(discriminate)) as Hs.
      destruct (Sorted_far_last_in (g0 :: g') ltac:(discriminate))
        as [Hlast Hhd].
      assert (Hb : forall z, In z (g0 :: g') ->
                             (1 <= z < Z.of_nat n - 1)%Z).
      { intros z Hz. rewrite <- Eg in Hz.
        apply (Subseq_In _ _ (group_beats_Subseq Fs _)) in Hz.
        apply in_map_iff in Hz as (p & <- & Hp).
        rewrite Forall_forall in Hin. specialize (Hin p Hp). lia. }
      pose proof (Hb _ Hlast) as H1. pose proof (Hb _ Hhd) as H2.
      assert (Hd : inject_Z (last (g0 :: g') 0%Z - hd 0%Z (g0 :: g')) < N).
      { subst N. rewrite <- Zlt_Qlt. lia. }
      subst K.
      assert (EK : inject_Z (Z.of_nat (length (g0 :: g')) - 1)
                   == inject_Z (Z.of_nat (length (g0 :: g'))) - 1).
      { rewrite <- Z.add_opp_r, inject_Z_plus, inject_Z_opp. reflexivity. }
      rewrite EK in Hs. subst F. lra. }
  split.
  - apply Qle_shift_div_l; [exact HN |]. rewrite Qmult_0_l.
    apply Qmult_le_0_compat; [|now apply Qlt_le_weak].
    apply Qmult_le_0_compat; [discriminate | exact HK].
  - apply Qlt_shift_div_r; [exact HN |].
    assert (E : (100 + 60 * F / N) * N == 100 * N + 60 * F).
    { field. intros H0. rewrite H0 in HN. exact (Qlt_irrefl _ HN). }
    rewrite E.
    assert (E2 : (K - 1) * (0.6 * F) == 0.6 * (K * F) - 0.6 * F) by ring.
    rewrite E2 in Hspan.
    assert (E3 : 60 * K * F == 60 * (K * F)) by ring.
    rewrite E3. lra.
Qed.

Lemma bpm_below_hundred_plus_witness :
  exists r,
    process_heartbeat (L := ref_lib) (R := ref_round)
      (Mono one_click) 401 = Ok r
    /\ 0 <= bpm r
    /\ bpm r < 100 + 60 * inject_Z 401
                     / inject_Z (Z.of_nat (length (to_mono (Mono one_click)))).
Proof.
  assert (H : exists r,
             process_heartbeat (L := ref_lib) (R := ref_round)
               (Mono one_click) 401 = Ok r)
    by (vm_compute; eexists; reflexivity).
  destruct H as [r H]. exists r. split; [exact H |].
  exact (bpm_below_hundred_plus ref_lib ref_round ref_lib_laws _ _ r H).
Defined.

(** *** The fallback path *)

(** The detector succeeds on a non-empty envelope at 5 Hz or more. *)
Lemma detect_peaks_ok (Fs : Z) (env : list Q) :
  env <> [] -> (5 <= Fs)%Z ->
  exists th pk, detect_peaks Fs env = Ok (th, pk).
Proof.
  intros Hne HFs. unfold detect_peaks.
  destruct env as [|e0 env']; [congruence |]. cbn [np_max bind].
  unfold find_peaks. rewrite min_distance_quot.
  destruct (Z.ltb_spec (Z.quot (2 * Fs) 10) 1) as [Hlt | Hge].
  - exfalso. revert Hlt. Z.to_euclidean_division_equations. lia.
  - cbn [bind]. eexists _, _. reflexivity.
Qed.

(** SciPy's [butter] accepts the band up to 200 Hz only below the Nyquist
    frequency, [Fs > 400], and its [filtfilt] raises on a waveform of at
    most [3 * max(len(a), len(b)) = 15] samples, the five coefficients of
    the band-pass filter given.  Such a waveform is shorter than the
    smoothing window, which has 20 samples or more. *)
Lemma fallback_inputs_short (Fs : Z) (n : nat) :
  (400 < Fs)%Z -> (n <= 15)%nat -> (n < Z.to_nat (window_len Fs))%nat.
Proof.
  intros HFs Hn. rewrite window_len_quot.
  assert (20 <= Fs * 5 / 100)%Z by (apply Z.div_le_lower_bound; lia).
  lia.
Qed.

(** C4.  The fallback is taken, and the run fails all the same.  When the
    zero-phase filter raises on the normalized waveform, the band-pass
    stage returns what the forward filter computes from the same
    coefficients, a sequence as long as the waveform.  When the waveform
    is shorter than the smoothing window, which by [fallback_inputs_short]
    is the case of every waveform SciPy's zero-phase filter refuses, the
    smoothed envelope has the length of the window, the plot of it against
    the time axis of the waveform raises, and [process_heartbeat] raises
    [ValueError]: the error does reach the caller. *)
Theorem fallback_run_raises (L : SignalLib) (R : FloatRound)
        (HL : SignalLibLaws L) (inp : audio) (Fs : Z) (y b a : list Q)
        (e : exn) :
  normalize (to_mono inp) = Ok y ->
  butter_band Fs = Ok (b, a) ->
  filtfilt b a y = Raise e ->
  (length y < Z.to_nat (window_len Fs))%nat ->
  (exists out, bandpass Fs y = Ok out
               /\ lfilter b a y = Ok out
               /\ length out = length y)
  /\ process_heartbeat inp Fs = Raise ValueError.
Proof.
  intros Hy Hbut Hff Hshort.
  assert (Hne : y <> []).
  { intros ->. pose proof (normalize_length _ _ Hy) as Hl.
    destruct (to_mono inp); [discriminate Hy | discriminate Hl]. }
  assert (Hlen1 : (1 <= length y)%nat)
    by (destruct y; [congruence | simpl; lia]).
  destruct (bandpass_fallback Fs y b a e Hbut Hff Hne)
    as (out & Hbp & Hlf & Hlen).
  split; [exists out; repeat split; assumption |].
  assert (HFs : (40 <= Fs)%Z).
  { rewrite window_len_quot in Hshort.
    revert Hshort. Z.to_euclidean_division_equations. lia. }
  unfold process_heartbeat. rewrite Hy. cbn [bind].
  destruct (duration_of (length y) Fs) as [dur|] eqn:E2; cbn [bind].
  2:{ unfold duration_of in E2.
      destruct (Z.eqb_spec Fs 0); [lia | discriminate]. }
  rewrite Hbp. cbn [bind].
  destruct (smooth_envelope_ok Fs (hilbert_abs out)) as [es Hes].
  { intros E. apply (f_equal (@length Q)) in E.
    rewrite hilbert_abs_length in E. simpl in E. lia. }
  rewrite Hes. cbn [bind].
  apply smooth_envelope_length in Hes. rewrite hilbert_abs_length in Hes.
  destruct (detect_peaks_ok Fs es) as (th & pk & Hdp).
  { intros ->. simpl in Hes. lia. }
  { lia. }
  rewrite Hdp. cbn [bind].
  unfold plot_tracks. cbn [forallb].
  assert (E : (length es =? length y)%nat = false)
    by (apply Nat.eqb_neq; lia).
  rewrite E, !andb_false_r. reflexivity.
Qed.

Lemma fallback_run_raises_witness :
  normalize (to_mono (Mono ten_samples)) = Ok ten_samples
  /\ butter_band (SignalLib := ref_lib) 1000
     = Ok ([1; 0; -2; 0; 1], [1; 0; 0; 0; 0])
  /\ filtfilt (SignalLib := ref_lib)
       [1; 0; -2; 0; 1] [1; 0; 0; 0; 0] ten_samples
     = Raise ValueError
  /\ (length ten_samples < Z.to_nat (window_len 1000))%nat
  /\ (exists out,
        bandpass (L := ref_lib) 1000 ten_samples = Ok out
        /\ lfilter [1; 0; -2; 0; 1] [1; 0; 0; 0; 0] ten_samples = Ok out
        /\ length out = length ten_samples)
  /\ process_heartbeat (L := ref_lib) (R := ref_round)
       (Mono ten_samples) 1000
     = Raise ValueError.
Proof.
  assert (Hy : normalize (to_mono (Mono ten_samples)) = Ok ten_samples)
    by (vm_compute; reflexivity).
  assert (Hbut : butter_band (SignalLib := ref_lib) 1000
                 = Ok ([1; 0; -2; 0; 1], [1; 0; 0; 0; 0]))
    by reflexivity.
  assert (Hff : filtfilt (SignalLib := ref_lib)
                  [1; 0; -2; 0; 1] [1; 0; 0; 0; 0] ten_samples
                = Raise ValueError)
    by reflexivity.
  assert (Hshort : (length ten_samples < Z.to_nat (window_len 1000))%nat)
    by (vm_compute; lia).
  split; [exact Hy |]. split; [exact Hbut |]. split; [exact Hff |].
  split; [exact Hshort |].
  exact (fallback_run_raises ref_lib ref_round ref_lib_laws
           (Mono ten_samples) 1000 ten_samples
           [1; 0; -2; 0; 1] [1; 0; 0; 0; 0] ValueError
           Hy Hbut Hff Hshort).
Defined.

End RunFacts.

(* ------------------------------------------------------------------ *)
(** ** The session service *)

Module ServiceFacts.
Import SessionId SessionIdFacts Pipeline Service.
Local Open Scope string_scope.

(** *** Identifiers *)

Lemma safe_session_id_ok_iff (s : string) :
  safe_session_id s = Ok s <-> is_empty s = false /\ all_hex s = true.
Proof.
  unfold safe_session_id.
  destruct (is_empty s); cbn [orb]; [split; [discriminate | intros []; discriminate] |].
  destruct (all_hex s); cbn [negb]; split; try discriminate; auto.
  intros []. discriminate.
Qed.

Lemma safe_session_id_inv (s out : string) :
  safe_session_id s = Ok out ->
  out = s /\ is_empty s = false /\ all_hex s = true.
Proof.
  unfold safe_session_id.
  destruct (is_empty s); cbn [orb]; [discriminate |].
  destruct (all_hex s); cbn [negb]; [|discriminate].
  intros [= <-]. auto.
Qed.

Lemma all_hex_keep_hex (s : string) : all_hex (keep_hex s) = true.
Proof.
  induction s as [|c s IH]; cbn [keep_hex]; [reflexivity |].
  destruct (char_in c hex_alphabet) eqn:E; [|exact IH].
  cbn [all_hex]. now rewrite E, IH.
Qed.

Lemma all_hex_app (s1 s2 : string) :
  all_hex (s1 ++ s2) = all_hex s1 && all_hex s2.
Proof.
  induction s1 as [|c s1 IH]; cbn [append all_hex]; [reflexivity |].
  now rewrite IH, andb_assoc.
Qed.

Lemma all_hex_take (n : nat) : forall s,
  all_hex s = true -> all_hex (take n s) = true.
Proof.
  induction n as [|n IH]; intros s Hs; [destruct s; reflexivity |].
  destruct s as [|c s]; [reflexivity |].
  cbn [take all_hex] in *. apply andb_prop in Hs as [Hc Hs].
  now rewrite Hc, IH.
Qed.

Lemma length_take (n : nat) : forall s,
  String.length (take n s) = Nat.min n (String.length s).
Proof.
  induction n as [|n IH]; intros s; [destruct s; reflexivity |].
  destruct s as [|c s]; [reflexivity |].
  cbn [take String.length]. now rewrite IH.
Qed.

Lemma length_append (s1 s2 : string) :
  String.length (s1 ++ s2) = (String.length s1 + String.length s2)%nat.
Proof.
  induction s1 as [|c s1 IH]; cbn [append String.length]; [reflexivity |].
  now rewrite IH.
Qed.

Lemma is_empty_length (s : string) :
  is_empty s = false <-> (1 <= String.length s)%nat.
Proof. destruct s; simpl; split; try discriminate; try lia; auto. Qed.

Lemma take_app_prefix (n : nat) : forall s1 s2,
  (n <= String.length s1)%nat -> take n (s1 ++ s2) = take n s1.
Proof.
  induction n as [|n IH]; intros s1 s2 Hn.
  - destruct s1, s2; reflexivity.
  - destruct s1 as [|c s1]; [simpl in Hn; lia |].
    cbn [append take]. rewrite IH; [reflexivity | simpl in Hn; lia].
Qed.

Lemma rename_target_ok (sid new_id : string) :
  safe_session_id sid = Ok sid ->
  (4 <= String.length (clean_new_id new_id))%nat ->
  safe_session_id (rename_target sid new_id) = Ok (rename_target sid new_id).
Proof.
  intros Hsid Hlen.
  apply safe_session_id_ok_iff in Hsid as [Hne Hhex].
  apply safe_session_id_ok_iff. split.
  - apply is_empty_length. unfold rename_target.
    rewrite length_take, length_append. lia.
  - unfold rename_target. apply all_hex_take.
    rewrite all_hex_app. unfold clean_new_id.
    now rewrite all_hex_keep_hex, Hhex.
Qed.

(** X12.  When a rename gets past its checks (a valid session id, at
    least four hexadecimal characters in the new identifier), the target
    name is itself a valid session id of 4 to 8 characters: it starts with
    the cleaned new identifier, cut at 8, and is filled up from the old
    id. *)
Theorem rename_target_valid (sid new_id : string) :
  safe_session_id sid = Ok sid ->
  (4 <= String.length (clean_new_id new_id))%nat ->
  let t := rename_target sid new_id in
  safe_session_id t = Ok t
  /\ (4 <= String.length t <= 8)%nat
  /\ String.length t
     = Nat.min 8 (String.length (clean_new_id new_id) + String.length sid)
  /\ take (Nat.min 8 (String.length (clean_new_id new_id))) t
     = take 8 (clean_new_id new_id).
Proof.
  intros Hsid Hlen t.
  apply safe_session_id_ok_iff in Hsid as [Hne Hhex].
  assert (Hl : String.length t
               = Nat.min 8 (String.length (clean_new_id new_id)
                            + String.length sid)).
  { unfold t, rename_target. now rewrite length_take, length_append. }
  split; [|split; [lia | split; [exact Hl |]]].
  - apply safe_session_id_ok_iff. split.
    + apply is_empty_length. lia.
    + unfold t, rename_target. apply all_hex_take.
      rewrite all_hex_app. unfold clean_new_id.
      now rewrite all_hex_keep_hex, Hhex.
  - unfold t, rename_target.
    destruct (Nat.le_ge_cases 8 (String.length (clean_new_id new_id)))
      as [H8 | H8].
    + rewrite Nat.min_l by exact H8.
      rewrite take_app_prefix by exact H8.
      assert (Hidem : forall n s, take n (take n s) = take n s).
      { induction n as [|n IH]; intros s; [destruct s; reflexivity |].
        destruct s; [reflexivity |]. cbn [take]. now rewrite IH. }
      apply Hidem.
    + rewrite Nat.min_r by exact H8.
      assert (Htt : forall m n s, (m <= n)%nat ->
                                  take m (take n s) = take m s).
      { induction m as [|m IH]; intros n s Hmn.
        - destruct n, s; reflexivity.
        - destruct n as [|n]; [lia |]. destruct s; [reflexivity |].
          cbn [take]. rewrite IH by lia. reflexivity. }
      rewrite Htt by exact H8.
      rewrite take_app_prefix by lia.
      assert (Hfull : forall n s, (String.length s <= n)%nat -> take n s = s).
      { induction n as [|n IH]; intros s Hs.
        - destruct s; [reflexivity | simpl in Hs; lia].
        - destruct s; [reflexivity |]. cbn [take].
          rewrite IH; [reflexivity | simpl in Hs; lia]. }
      now rewrite !Hfull by lia.
Qed.

Lemma rename_target_valid_witness :
  safe_session_id "0a1b2c3d" = Ok "0a1b2c3d"
  /\ (4 <= String.length (clean_new_id "Night-BEEF"))%nat
  /\ let t := rename_target "0a1b2c3d" "Night-BEEF" in
     safe_session_id t = Ok t
     /\ (4 <= String.length t <= 8)%nat
     /\ String.length t
        = Nat.min 8 (String.length (clean_new_id "Night-BEEF")
                     + String.length "0a1b2c3d")
     /\ take (Nat.min 8 (String.length (clean_new_id "Night-BEEF"))) t
        = take 8 (clean_new_id "Night-BEEF").
Proof.
  assert (H1 : safe_session_id "0a1b2c3d" = Ok "0a1b2c3d") by reflexivity.
  assert (H2 : (4 <= String.length (clean_new_id "Night-BEEF"))%nat)
    by (vm_compute; lia).
  split; [exact H1 |]. split; [exact H2 |].
  exact (rename_target_valid "0a1b2c3d" "Night-BEEF" H1 H2).
Defined.

(** *** The store *)

Lemma lookup_remove_same (k : string) (st : store) :
  lookup k (remove k st) = None.
Proof.
  induction st as [|[k0 f0] st IH]; cbn [remove]; [reflexivity |].
  destruct (String.eqb k0 k) eqn:E; [exact IH |].
  cbn [lookup]. now rewrite E.
Qed.

Lemma lookup_remove_other (k k' : string) (st : store) :
  k' <> k -> lookup k' (remove k st) = lookup k' st.
Proof.
  intros Hne.
  induction st as [|[k0 f0] st IH]; cbn [remove lookup]; [reflexivity |].
  destruct (String.eqb k0 k) eqn:E.
  - apply String.eqb_eq in E. subst k0.
    destruct (String.eqb k k') eqn:E'; [|exact IH].
    apply String.eqb_eq in E'. congruence.
  - cbn [lookup]. now rewrite IH.
Qed.

Lemma lookup_put_same (k : string) (f : folder) (st : store) :
  lookup k (put k f st) = Some f.
Proof. unfold put. cbn [lookup]. now rewrite String.eqb_refl. Qed.

Lemma lookup_put_other (k k' : string) (f : folder) (st : store) :
  k' <> k -> lookup k' (put k f st) = lookup k' st.
Proof.
  intros Hne. unfold put. cbn [lookup].
  destruct (String.eqb k k') eqn:E.
  - apply String.eqb_eq in E. congruence.
  - now apply lookup_remove_other.
Qed.

Lemma In_keys_remove (k k' : string) (st : store) :
  In k' (map fst (remove k st)) -> In k' (map fst st) /\ k' <> k.
Proof.
  induction st as [|[k0 f0] st IH]; cbn [remove map]; [intros [] |].
  destruct (String.eqb k0 k) eqn:E.
  - intros H. destruct (IH H). split; [now right | assumption].
  - apply String.eqb_neq in E. cbn [map fst In].
    intros [<- | H]; [split; [now left | exact E] |].
    destruct (IH H). split; [now right | assumption].
Qed.

Lemma NoDup_remove (k : string) (st : store) :
  NoDup (map fst st) -> NoDup (map fst (remove k st)).
Proof.
  induction st as [|[k0 f0] st IH]; cbn [remove map]; intros H;
    [constructor |].
  apply NoDup_cons_iff in H as [Hnin Hnd]. cbn [fst] in Hnin.
  destruct (String.eqb k0 k); [now apply IH |].
  cbn [map fst]. constructor; [|now apply IH].
  intros Hin. apply In_keys_remove in Hin as [Hin _]. contradiction.
Qed.

Lemma NoDup_put (k : string) (f : folder) (st : store) :
  NoDup (map fst st) -> NoDup (map fst (put k f st)).
Proof.
  intros H. unfold put. cbn [map fst]. constructor.
  - intros Hin. apply In_keys_remove in Hin as [_ Hne]. congruence.
  - now apply NoDup_remove.
Qed.

(** *** Lookup, delete, rename *)


(** X14.  A rename that answers 200 reports the old id and the target
    name; the target did not exist before, so nothing is overwritten; the
    folder with all its files and metadata is now found under the target
    and no longer under the old id; every other session is untouched.  A
    rename that does not answer 200 changes nothing. *)
Theorem rename_session_effect (sid new_id : string) (st : store) :
  let r := fst (rename_session sid new_id st) in
  let st' := snd (rename_session sid new_id st) in
  (forall old new, r = Success (old, new) ->
     old = sid /\ new = rename_target sid new_id
     /\ safe_session_id new = Ok new
     /\ lookup new st = None
     /\ lookup sid st <> None
     /\ lookup new st' = lookup sid st
     /\ lookup sid st' = None
     /\ session_json new st' = match session_json sid st with
                               | Success (_, m) => Success (new, m)
                               | other => other
                               end
     /\ forall k, k <> sid -> k <> new -> lookup k st' = lookup k st)
  /\ ((forall old new, r <> Success (old, new)) -> st' = st).
Proof.
  unfold rename_session.
  destruct (safe_session_id sid) as [out|e] eqn:Hsid.
  2:{ cbn [fst snd]. split; [discriminate | reflexivity]. }
  apply safe_session_id_inv in Hsid as (-> & Hne & Hhex).
  assert (Hok : safe_session_id sid = Ok sid)
    by (apply safe_session_id_ok_iff; auto).
  destruct (is_empty new_id).
  { cbn [fst snd]. split; [discriminate | reflexivity]. }
  destruct (Nat.ltb_spec (String.length (clean_new_id new_id)) 4)
    as [Hshort | Hlong].
  { cbn [fst snd]. split; [discriminate | reflexivity]. }
  set (t := rename_target sid new_id).
  destruct (lookup t st) as [ft|] eqn:Ht.
  { cbn [fst snd]. split; [discriminate | reflexivity]. }
  destruct (lookup sid st) as [f|] eqn:Hf.
  2:{ cbn [fst snd]. split; [discriminate | reflexivity]. }
  cbn [fst snd]. split.
  2:{ intros H. exfalso. now apply (H sid t). }
  intros old new [= <- <-].
  pose proof (rename_target_ok sid new_id Hok Hlong) as Hvalid.
  fold t in Hvalid.
  assert (Hneq : sid <> t) by (intros E; rewrite <- E in Ht; congruence).
  split; [reflexivity |]. split; [reflexivity |].
  split; [exact Hvalid |]. split; [first [exact Ht | reflexivity] |].
  split; [try rewrite Hf; discriminate |].
  split; [try rewrite Hf; apply lookup_put_same |].
  assert (Hgone : lookup sid (put t f (remove sid st)) = None).
  { rewrite lookup_put_other by exact Hneq. apply lookup_remove_same. }
  split; [exact Hgone |]. split.
  - unfold session_json. rewrite Hvalid, Hok, lookup_put_same.
    try rewrite Hf. destruct (meta_json f); reflexivity.
  - intros k Hk1 Hk2.
    rewrite lookup_put_other by exact Hk2.
    now apply lookup_remove_other.
Qed.

(** X15.  Delete and rename only ever change folders whose name is a
    valid session id: a folder found differently after the call than
    before has a name of hexadecimal digits, so no name with a separator
    or a dot is reached. *)
Theorem only_hex_names_touched (sid new_id k : string) (st : store) :
  (lookup k (snd (delete_session sid st)) <> lookup k st ->
   safe_session_id k = Ok k)
  /\ (lookup k (snd (rename_session sid new_id st)) <> lookup k st ->
      safe_session_id k = Ok k).
Proof.
  split.
  - unfold delete_session.
    destruct (safe_session_id sid) as [out|e] eqn:Hsid;
      [|cbn [snd]; congruence].
    apply safe_session_id_inv in Hsid as (-> & Hne & Hhex).
    destruct (lookup sid st); cbn [snd]; [|congruence].
    intros Hk. destruct (string_dec k sid) as [-> | Hneq].
    + apply safe_session_id_ok_iff. auto.
    + exfalso. apply Hk. now apply lookup_remove_other.
  - unfold rename_session.
    destruct (safe_session_id sid) as [out|e] eqn:Hsid;
      [|cbn [snd]; congruence].
    apply safe_session_id_inv in Hsid as (-> & Hne & Hhex).
    assert (Hok : safe_session_id sid = Ok sid)
      by (apply safe_session_id_ok_iff; auto).
    destruct (is_empty new_id); [cbn [snd]; congruence |].
    destruct (Nat.ltb_spec (String.length (clean_new_id new_id)) 4)
      as [Hshort | Hlong]; [cbn [snd]; congruence |].
    destruct (lookup (rename_target sid new_id) st);
      [cbn [snd]; congruence |].
    destruct (lookup sid st); cbn [snd]; [|congruence].
    intros Hk.
    destruct (string_dec k (rename_target sid new_id)) as [-> | Hneq1];
      [now apply rename_target_ok |].
    destruct (string_dec k sid) as [-> | Hneq2]; [exact Hok |].
    exfalso. apply Hk.
    rewrite lookup_put_other by exact Hneq1.
    now apply lookup_remove_other.
Qed.

(** X16.  Folder names stay unique: when no two folders of the store share
    a name, none do after a delete or a rename, whatever the answer. *)
Theorem names_stay_unique (sid new_id : string) (st : store) :
  NoDup (map fst st) ->
  NoDup (map fst (snd (delete_session sid st)))
  /\ NoDup (map fst (snd (rename_session sid new_id st))).
Proof.
  intros Hnd. split.
  - unfold delete_session.
    destruct (safe_session_id sid); [|exact Hnd].
    destruct (lookup a st); cbn [snd]; [now apply NoDup_remove | exact Hnd].
  - unfold rename_session.
    destruct (safe_session_id sid); [|exact Hnd].
    destruct (is_empty new_id); [exact Hnd |].
    destruct (String.length (clean_new_id new_id) <? 4)%nat; [exact Hnd |].
    destruct (lookup (rename_target a new_id) st); [exact Hnd |].
    destruct (lookup a st); cbn [snd]; [|exact Hnd].
    now apply NoDup_put, NoDup_remove.
Qed.

Lemma names_stay_unique_witness :
  NoDup (map fst demo_store)
  /\ NoDup (map fst (snd (delete_session "ffff0000" demo_store)))
  /\ NoDup (map fst (snd (rename_session "ffff0000" "Night-BEEF" demo_store))).
Proof.
  assert (H : NoDup (map fst demo_store)).
  { repeat constructor; simpl; intuition discriminate. }
  split; [exact H |].
  exact (names_stay_unique "ffff0000" "Night-BEEF" demo_store H).
Defined.

(** *** Listing *)

Lemma insert_desc_Permutation (x : string * option meta)
      (l : list (string * option meta)) :
  Permutation (insert_desc x l) (x :: l).
Proof.
  induction l as [|y l IH]; cbn [insert_desc]; [reflexivity |].
  destruct (String.leb (fst y) (fst x)); [reflexivity |].
  rewrite IH. apply perm_swap.
Qed.

Lemma dashboard_Permutation (st : store) :
  Permutation (dashboard st)
              (map (fun kf => (fst kf, meta_json (snd kf))) st).
Proof.
  unfold dashboard.
  induction (map (fun kf => (fst kf, meta_json (snd kf))) st) as [|x l IH];
    cbn [fold_right]; [reflexivity |].
  rewrite insert_desc_Permutation. now constructor.
Qed.

Lemma insert_desc_Sorted (x : string * option meta)
      (l : list (string * option meta)) :
  Sorted (fun a b => String.leb (fst b) (fst a) = true) l ->
  Sorted (fun a b => String.leb (fst b) (fst a) = true) (insert_desc x l).
Proof.
  induction l as [|y l IH]; intros Hl; cbn [insert_desc].
  - repeat constructor.
  - destruct (String.leb (fst y) (fst x)) eqn:E.
    + constructor; [exact Hl | now constructor].
    + apply Sorted_inv in Hl as [Hl Hy].
      constructor; [now apply IH |].
      assert (Hxy : String.leb (fst x) (fst y) = true).
      { destruct (String.leb_total (fst x) (fst y)) as [H | H];
          [exact H | congruence]. }
      destruct l as [|z l]; cbn [insert_desc]; [now constructor |].
      destruct (String.leb (fst z) (fst x)); constructor;
        [exact Hxy | now apply HdRel_inv in Hy].
Qed.

(** X21.  The listing shows every session folder exactly once, each with
    its metadata or none, ordered by descending name. *)
Theorem dashboard_lists_all (st : store) :
  Permutation (dashboard st)
              (map (fun kf => (fst kf, meta_json (snd kf))) st)
  /\ Sorted (fun a b => String.leb (fst b) (fst a) = true) (dashboard st)
  /\ List.length (dashboard st) = List.length st.
Proof.
  split; [apply dashboard_Permutation |]. split.
  - unfold dashboard.
    induction (map (fun kf => (fst kf, meta_json (snd kf))) st) as [|x l IH];
      cbn [fold_right]; [constructor | now apply insert_desc_Sorted].
  - rewrite (Permutation_length (dashboard_Permutation st)).
    apply length_map.
Qed.

(** *** Analysis with its files, and upload *)

Lemma process_heartbeat_files_facts (L : SignalLib) (R : FloatRound)
      (inp : audio) (Fs : Z) (f : folder) :
  snd (process_heartbeat_files inp Fs f) = process_heartbeat inp Fs
  /\ raw_upload_wav (fst (process_heartbeat_files inp Fs f))
     = raw_upload_wav f
  /\ (forall r, process_heartbeat inp Fs = Ok r ->
        fst (process_heartbeat_files inp Fs f)
        = {| raw_upload_wav := raw_upload_wav f; original_wav := true;
             filtered_wav := true; plot_png := true;
             meta_json := Some (result_meta r) |})
  /\ (forall e, process_heartbeat inp Fs = Raise e ->
        meta_json (fst (process_heartbeat_files inp Fs f)) = meta_json f
        /\ plot_png (fst (process_heartbeat_files inp Fs f)) = plot_png f).
Proof.
  unfold process_heartbeat_files, process_heartbeat.
  destruct (Normalizer.normalize (to_mono inp)) as [y|e1]; cbn [bind fst snd];
    [|repeat split; try discriminate; reflexivity].
  destruct (duration_of (List.length y) Fs) as [dur|e2]; cbn [bind fst snd];
    [|repeat split; try discriminate; reflexivity].
  destruct (bandpass Fs y) as [yf|e3]; cbn [bind fst snd];
    [|repeat split; try discriminate; reflexivity].
  destruct (Envelope.smooth_envelope Fs (hilbert_abs yf)) as [es|e4];
    cbn [bind fst snd]; [|repeat split; try discriminate; reflexivity].
  destruct (Peaks.detect_peaks Fs es) as [[th pk]|e5]; cbn [bind fst snd];
    [|repeat split; try discriminate; reflexivity].
  destruct (plot_tracks (List.length y) [y; yf; es]) as [[]|e6];
    cbn [bind fst snd]; [|repeat split; try discriminate; reflexivity].
  repeat split; try discriminate.
  intros r [= <-]. reflexivity.
Qed.

(** X17.  The analysis writes [meta.json] exactly when it returns, with
    the metadata it returns, and then [original.wav], [filtered.wav] and
    [plot.png] exist too; when it raises, [meta.json] and [plot.png] are
    left as they were.  The uploaded file is never touched by it. *)
Theorem analysis_files (L : SignalLib) (R : FloatRound)
        (inp : audio) (Fs : Z) (f : folder) :
  let f' := fst (process_heartbeat_files inp Fs f) in
  snd (process_heartbeat_files inp Fs f) = process_heartbeat inp Fs
  /\ raw_upload_wav f' = raw_upload_wav f
  /\ (forall r, process_heartbeat inp Fs = Ok r ->
        meta_json f' = Some (result_meta r)
        /\ original_wav f' = true /\ filtered_wav f' = true
        /\ plot_png f' = true)
  /\ (forall e, process_heartbeat inp Fs = Raise e ->
        meta_json f' = meta_json f /\ plot_png f' = plot_png f).
Proof.
  intros f'.
  destruct (process_heartbeat_files_facts L R inp Fs f) as (H1 & H2 & H3 & H4).
  split; [exact H1 |]. split; [exact H2 |]. split; [|exact H4].
  intros r Hr. unfold f'. rewrite (H3 r Hr). repeat split.
Qed.

Lemma upload_wav_cases (L : SignalLib) (R : FloatRound)
      (filename uuid_hex : string)
      (decoded : option (audio * Z)) (st : store) :
  ends_with ".wav" (lower filename) = true ->
  let id := take 8 uuid_hex in
  let f1 := {| raw_upload_wav := true;
               original_wav :=
                 original_wav (match lookup id st with
                               | Some f => f | None => empty_folder end);
               filtered_wav :=
                 filtered_wav (match lookup id st with
                               | Some f => f | None => empty_folder end);
               plot_png :=
                 plot_png (match lookup id st with
                           | Some f => f | None => empty_folder end);
               meta_json :=
                 meta_json (match lookup id st with
                            | Some f => f | None => empty_folder end) |} in
  (decoded = None
   /\ upload_wav filename uuid_hex decoded st
      = (Failed DecodeFailed, put id f1 st))
  \/ (exists inp Fs e f2,
        decoded = Some (inp, Fs)
        /\ process_heartbeat inp Fs = Raise e
        /\ raw_upload_wav f2 = true
        /\ meta_json f2 = meta_json f1
        /\ upload_wav filename uuid_hex decoded st
           = (Failed (AnalysisFailed e), put id f2 st))
  \/ (exists inp Fs r,
        decoded = Some (inp, Fs)
        /\ process_heartbeat inp Fs = Ok r
        /\ upload_wav filename uuid_hex decoded st
           = (Success (id, result_meta r),
              put id {| raw_upload_wav := false; original_wav := true;
                        filtered_wav := true; plot_png := true;
                        meta_json := Some (result_meta r) |} st)).
Proof.
  intros Hwav id f1. unfold upload_wav. rewrite Hwav. cbn [negb].
  fold id. fold f1.
  destruct decoded as [[inp Fs]|]; [|left; split; reflexivity].
  right.
  destruct (process_heartbeat_files_facts L R inp Fs f1) as (H1 & H2 & H3 & H4).
  destruct (process_heartbeat_files inp Fs f1) as [f2 res] eqn:E.
  cbn [fst snd] in *. subst res.
  destruct (process_heartbeat inp Fs) as [r|e] eqn:Hrun.
  - right. exists inp, Fs, r. split; [reflexivity |].
    split; [first [exact Hrun | reflexivity] |].
    rewrite (H3 r eq_refl). reflexivity.
  - left. exists inp, Fs, e, f2. split; [reflexivity |].
    split; [first [exact Hrun | reflexivity] |]. split; [exact H2 |].
    split; [exact (proj1 (H4 e eq_refl)) | reflexivity].
Qed.

(** X18.  An upload whose file name does not end in [.wav], in any
    letter case, is refused with status 400 and creates nothing.  Any
    other upload creates or rewrites exactly one folder, named by the
    first eight characters of the generated identifier, whatever the
    outcome; when that identifier is made of at least eight hexadecimal
    digits the name is a valid session id. *)
Theorem upload_wav_folder (L : SignalLib) (R : FloatRound)
        (filename uuid_hex : string)
        (decoded : option (audio * Z)) (st : store) :
  let id := take 8 uuid_hex in
  let st' := snd (upload_wav filename uuid_hex decoded st) in
  (ends_with ".wav" (lower filename) = false ->
     upload_wav filename uuid_hex decoded st
     = (Refused 400 "Only .wav files are supported", st))
  /\ (ends_with ".wav" (lower filename) = true ->
        lookup id st' <> None
        /\ (forall k, k <> id -> lookup k st' = lookup k st)
        /\ (all_hex uuid_hex = true -> (8 <= String.length uuid_hex)%nat ->
            safe_session_id id = Ok id /\ String.length id = 8%nat)).
Proof.
  intros id st'. split.
  - intros Hwav. unfold upload_wav. now rewrite Hwav.
  - intros Hwav.
    assert (Hput : exists f, st' = put id f st).
    { unfold st'.
      destruct (upload_wav_cases L R filename uuid_hex decoded st Hwav)
        as [[_ E] | [(inp & Fs & e & f2 & _ & _ & _ & _ & E)
                    | (inp & Fs & r & _ & _ & E)]];
        rewrite E; cbn [snd]; eexists; reflexivity. }
    destruct Hput as [f Hput]. rewrite Hput. split; [|split].
    + rewrite lookup_put_same. discriminate.
    + intros k Hk. now apply lookup_put_other.
    + intros Hhex Hlen. split.
      * apply safe_session_id_ok_iff. split.
        -- apply is_empty_length. unfold id. rewrite length_take. lia.
        -- now apply all_hex_take.
      * unfold id. rewrite length_take. lia.
Qed.


(** X20.  A failed upload leaves its folder behind: when the decoding or
    the analysis raises, the answer carries status 500, yet the folder
    exists afterwards and still holds the uploaded file.  If the name was
    new, the folder has no metadata: the JSON endpoint answers 404 for it
    while the listing shows it with empty metadata. *)
Theorem upload_failure_leaves_folder (L : SignalLib) (R : FloatRound)
        (filename uuid_hex : string) (decoded : option (audio * Z))
        (st : store) (why : failure) :
  fst (upload_wav filename uuid_hex decoded st) = Failed why ->
  let id := take 8 uuid_hex in
  let st' := snd (upload_wav filename uuid_hex decoded st) in
  (exists f, lookup id st' = Some f /\ raw_upload_wav f = true
             /\ (lookup id st = None -> meta_json f = None))
  /\ (lookup id st = None -> safe_session_id id = Ok id ->
      session_json id st' = Refused 404 "meta not found"
      /\ In (id, None) (dashboard st')).
Proof.
  intros Hup id st'.
  destruct (ends_with ".wav" (lower filename)) eqn:Hwav.
  2:{ unfold upload_wav in Hup. rewrite Hwav in Hup. discriminate. }
  assert (Hf : exists f, st' = put id f st /\ raw_upload_wav f = true
               /\ (lookup id st = None -> meta_json f = None)).
  { unfold st'.
    destruct (upload_wav_cases L R filename uuid_hex decoded st Hwav)
      as [[_ E] | [(inp & Fs & e & f2 & _ & _ & Hraw & Hmeta & E)
                  | (inp & Fs & r & _ & _ & E)]];
      rewrite E in *; cbn [fst snd] in *; try discriminate.
    - eexists. split; [reflexivity |]. split; [reflexivity |].
      fold id. intros ->. reflexivity.
    - exists f2. split; [reflexivity |]. split; [exact Hraw |].
      rewrite Hmeta. cbn [meta_json]. fold id. intros ->. reflexivity. }
  destruct Hf as (f & Hst & Hraw & Hmeta). split.
  - exists f. rewrite Hst, lookup_put_same. auto.
  - intros Hnew Hok. rewrite Hst. split.
    + unfold session_json. rewrite Hok, lookup_put_same.
      now rewrite (Hmeta Hnew).
    + apply (Permutation_in (l := map (fun kf => (fst kf, meta_json (snd kf)))
                                      (put id f st))).
      * apply Permutation_sym, dashboard_Permutation.
      * unfold put. cbn [map fst snd]. left. now rewrite (Hmeta Hnew).
Qed.

End ServiceFacts.

(* ------------------------------------------------------------------ *)
(** ** Runs of the service on the reference instance *)

Module ServiceRuns.
Import SessionId Pipeline Service ServiceFacts Reference.
Local Open Scope string_scope.


Lemma upload_failure_leaves_folder_witness :
  fst (upload_wav (L := ref_lib) (R := ref_round) "short.wav"
         "0123456789abcdef0123456789abcdef"
         (Some (Mono ten_samples, 1000%Z)) demo_store)
  = Failed (AnalysisFailed ValueError)
  /\ let id := take 8 "0123456789abcdef0123456789abcdef" in
     let st' := snd (upload_wav (L := ref_lib) (R := ref_round) "short.wav"
                       "0123456789abcdef0123456789abcdef"
                       (Some (Mono ten_samples, 1000%Z)) demo_store) in
     (exists f, lookup id st' = Some f /\ raw_upload_wav f = true
                /\ (lookup id demo_store = None -> meta_json f = None))
     /\ (lookup id demo_store = None -> safe_session_id id = Ok id ->
         session_json id st' = Refused 404 "meta not found"
         /\ In (id, None) (dashboard st')).
Proof.
  assert (H : fst (upload_wav (L := ref_lib) (R := ref_round) "short.wav"
                     "0123456789abcdef0123456789abcdef"
                     (Some (Mono ten_samples, 1000%Z)) demo_store)
              = Failed (AnalysisFailed ValueError))
    by (vm_compute; reflexivity).
  split; [exact H |].
  exact (upload_failure_leaves_folder ref_lib ref_round _ _ _ _ _ H).
Defined.

Lemma binary64_matches_model_witness :
  In 44100%Z Binary64.sample_rates
  /\ Binary64.window_len 44100 = Some (Envelope.window_len 44100)
  /\ Binary64.min_distance 44100 = Some (Peaks.min_distance 44100)
  /\ forall gap, (3 * 44100 / 5 - 1 <= gap <= 3 * 44100 / 5 + 1)%Z ->
       Binary64.far_apart 44100 gap
       = Num.Qlt_bool (0.6 * inject_Z 44100)%Q (inject_Z gap).
Proof.
  assert (H : In 44100%Z Binary64.sample_rates).
  { unfold Binary64.sample_rates. apply in_or_app. right.
    simpl. tauto. }
  split; [exact H |].
  exact (Binary64Facts.binary64_matches_model 44100 H).
Defined.

End ServiceRuns.
